(** * Linguist Pro: lookup client, history store, narration bridge, voice input

    A shallow embedding of the orchestration code of the vocabulary hub
    (services/geminiService.ts, App.tsx, components/WordDisplay.tsx), with the
    theorems that settle the properties stated about it.

    JavaScript strings are sequences of UTF-16 code units; asynchronous
    functions are modelled as functions of the outcome of the call they
    await, each handler running to its end before the next event is
    handled; React state is an explicit record threaded through the
    handlers, and every observable effect (service request, alert,
    console.error, start and stop of platform objects) is appended to a
    trace.  Writes to the local storage are taken to succeed. *)

From Stdlib Require Import Ascii String.
From Stdlib Require Import List Sorted NArith ZArith Bool Lia.
From Stdlib Require Import QArith Qround Qabs Lqa DecimalString.
Import ListNotations.
Close Scope Q_scope.
Local Open Scope N_scope.
Set Warnings "-register-all".

(* ================================================================== *)
(** * 1. JavaScript strings *)
(* ================================================================== *)

Definition code_unit := N.
Definition jsstring := list code_unit.

(** A string literal of the source, as code units. *)
Definition str (s : string) : jsstring :=
  map N_of_ascii (list_ascii_of_string s).

Fixpoint jsstring_eqb (a b : jsstring) : bool :=
  match a, b with
  | [], [] => true
  | x :: a', y :: b' => (x =? y) && jsstring_eqb a' b'
  | _, _ => false
  end.

(** [String.prototype.startsWith]. *)
Fixpoint startsWith (p s : jsstring) : bool :=
  match p, s with
  | [], _ => true
  | x :: p', y :: s' => (x =? y) && startsWith p' s'
  | _ :: _, [] => false
  end.

(** WhiteSpace and LineTerminator of ECMAScript, the code units that
    [String.prototype.trim] removes. *)
Definition is_js_whitespace (c : code_unit) : bool :=
  (c =? 9) || (c =? 10) || (c =? 11) || (c =? 12) || (c =? 13) || (c =? 32)
  || (c =? 160) || (c =? 5760) || ((8192 <=? c) && (c <=? 8202))
  || (c =? 8232) || (c =? 8233) || (c =? 8239) || (c =? 8287)
  || (c =? 12288) || (c =? 65279).

Fixpoint trimStart (s : jsstring) : jsstring :=
  match s with
  | [] => []
  | c :: s' => if is_js_whitespace c then trimStart s' else s
  end.

Definition trimEnd (s : jsstring) : jsstring := rev (trimStart (rev s)).

(** [String.prototype.trim]. *)
Definition trim (s : jsstring) : jsstring := trimEnd (trimStart s).

(** Empty, or whitespace only. *)
Definition blank (q : jsstring) : Prop :=
  Forall (fun c => is_js_whitespace c = true) q.

Definition fence : jsstring := str "```".
Definition fence_json : jsstring := str "```json".

(** [text.replace(/```json|```/g, '')]: the input is scanned from the left;
    wherever the alternation matches, the match is dropped and the scan
    resumes after it; any other code unit is copied.  [skip] counts the code
    units of the current match that are still to be dropped. *)
Fixpoint replace_fences_from (skip : nat) (s : jsstring) : jsstring :=
  match s with
  | [] => []
  | c :: s' =>
      match skip with
      | S k => replace_fences_from k s'
      | O =>
          if startsWith fence_json s then replace_fences_from 6 s'
          else if startsWith fence s then replace_fences_from 2 s'
          else c :: replace_fences_from 0 s'
      end
  end.

Definition replace_fences (s : jsstring) : jsstring := replace_fences_from 0 s.

(* ================================================================== *)
(** * 2. JSON values and [JSON.parse] *)
(* ================================================================== *)

(** The values [JSON.parse] can return.  A number keeps the numeral it was
    written with (its conversion to an IEEE double is left to the platform,
    see [Platform]).  An object is the list of its own properties in
    insertion order, each key once. *)
Inductive JSON : Type :=
| JNull
| JBool (b : bool)
| JNumber (numeral : jsstring)
| JString (s : jsstring)
| JArray (elements : list JSON)
| JObject (properties : list (jsstring * JSON)).

(** A JavaScript value read out of a parsed payload: [None] is [undefined]. *)
Definition jsval := option JSON.
Definition undefined : jsval := None.

(** Defining a property: a key already present keeps its position and takes
    the new value, a new key goes last. *)
Fixpoint obj_set (k : jsstring) (v : JSON) (ps : list (jsstring * JSON))
  : list (jsstring * JSON) :=
  match ps with
  | [] => [(k, v)]
  | (k', v') :: ps' =>
      if jsstring_eqb k k' then (k, v) :: ps' else (k', v') :: obj_set k v ps'
  end.

Fixpoint obj_get (k : jsstring) (ps : list (jsstring * JSON)) : jsval :=
  match ps with
  | [] => undefined
  | (k', v) :: ps' => if jsstring_eqb k k' then Some v else obj_get k ps'
  end.

(** The parser is the pushdown automaton of the JSON grammar (ECMA-404),
    one transition per code unit. *)
Inductive frame : Type :=
| FArr (acc : list JSON)                          (* elements so far, reversed *)
| FObj (ps : list (jsstring * JSON))              (* waiting for a key or [}] *)
| FObjV (ps : list (jsstring * JSON)) (key : jsstring).  (* waiting for key's value *)

Inductive numstate : Type :=
| NMinus | NZero | NInt | NDot | NFrac | NE | NESign | NExp.

Inductive mode : Type :=
| MValue                       (* a value must start *)
| MArrFirst                    (* after [[]: a value or []] *)
| MObjFirst                    (* after [{]: a key or [}] *)
| MObjKey                      (* after [,] in an object: a key *)
| MColon                       (* after a key: [:] *)
| MAfter                       (* after a value inside a container *)
| MEnd (v : JSON)              (* after the top-level value *)
| MStr (acc : jsstring)        (* inside a string, code units reversed *)
| MEsc (acc : jsstring)        (* after a backslash *)
| MUni (acc : jsstring) (k : nat) (v : N)   (* in \uXXXX, k digits to go *)
| MNum (acc : jsstring) (ns : numstate)     (* inside a number *)
| MLit (rest : jsstring) (v : JSON).        (* inside true, false or null *)

Definition pstate : Type := (list frame * mode)%type.

Definition is_json_ws (c : code_unit) : bool :=
  (c =? 9) || (c =? 10) || (c =? 13) || (c =? 32).

Definition is_digit (c : code_unit) : bool := (48 <=? c) && (c <=? 57).
Definition is_digit19 (c : code_unit) : bool := (49 <=? c) && (c <=? 57).

Definition hex_value (c : code_unit) : option N :=
  if is_digit c then Some (c - 48)
  else if (65 <=? c) && (c <=? 70) then Some (c - 55)
  else if (97 <=? c) && (c <=? 102) then Some (c - 87)
  else None.

Definition num_accepting (ns : numstate) : bool :=
  match ns with
  | NZero | NInt | NFrac | NExp => true
  | _ => false
  end.

(** A value [v] has just been completed below the frames [st]. *)
Definition complete_value (v : JSON) (st : list frame) : option pstate :=
  match st with
  | [] => Some ([], MEnd v)
  | FArr acc :: st' => Some (FArr (v :: acc) :: st', MAfter)
  | FObjV ps k :: st' => Some (FObj (obj_set k v ps) :: st', MAfter)
  | FObj _ :: _ => None
  end.

Definition complete_string (s : jsstring) (st : list frame) : option pstate :=
  match st with
  | FObj ps :: st' => Some (FObjV ps s :: st', MColon)
  | _ => complete_value (JString s) st
  end.

Definition step_after (st : list frame) (c : code_unit) : option pstate :=
  if is_json_ws c then Some (st, MAfter)
  else if c =? 44 (* , *) then
    match st with
    | FArr _ :: _ => Some (st, MValue)
    | FObj _ :: _ => Some (st, MObjKey)
    | _ => None
    end
  else if c =? 93 (* ] *) then
    match st with
    | FArr acc :: st' => complete_value (JArray (rev acc)) st'
    | _ => None
    end
  else if c =? 125 (* } *) then
    match st with
    | FObj ps :: st' => complete_value (JObject ps) st'
    | _ => None
    end
  else None.

(** The code unit [c] arrives right after a completed value. *)
Definition step_completed (p : option pstate) (c : code_unit) : option pstate :=
  match p with
  | Some (st, MAfter) => step_after st c
  | Some (st, MEnd v) => if is_json_ws c then Some (st, MEnd v) else None
  | _ => None
  end.

Definition start_value (st : list frame) (c : code_unit) : option pstate :=
  if c =? 123 (* { *) then Some (FObj [] :: st, MObjFirst)
  else if c =? 91 (* [ *) then Some (FArr [] :: st, MArrFirst)
  else if c =? 34 (* quote *) then Some (st, MStr [])
  else if c =? 45 (* - *) then Some (st, MNum [c] NMinus)
  else if c =? 48 (* 0 *) then Some (st, MNum [c] NZero)
  else if is_digit19 c then Some (st, MNum [c] NInt)
  else if c =? 116 (* t *) then Some (st, MLit (str "rue") (JBool true))
  else if c =? 102 (* f *) then Some (st, MLit (str "alse") (JBool false))
  else if c =? 110 (* n *) then Some (st, MLit (str "ull") JNull)
  else None.

Definition is_e (c : code_unit) : bool := (c =? 101) || (c =? 69).

(** One code unit inside a number: [Some (Some ns')] continues the numeral,
    [Some None] ends it before [c], [None] is a syntax error. *)
Definition num_step (ns : numstate) (c : code_unit) : option (option numstate) :=
  match ns with
  | NMinus => if c =? 48 then Some (Some NZero)
              else if is_digit19 c then Some (Some NInt) else None
  | NZero => if c =? 46 then Some (Some NDot)
             else if is_e c then Some (Some NE) else Some None
  | NInt => if is_digit c then Some (Some NInt)
            else if c =? 46 then Some (Some NDot)
            else if is_e c then Some (Some NE) else Some None
  | NDot => if is_digit c then Some (Some NFrac) else None
  | NFrac => if is_digit c then Some (Some NFrac)
             else if is_e c then Some (Some NE) else Some None
  | NE => if (c =? 43) || (c =? 45) then Some (Some NESign)
          else if is_digit c then Some (Some NExp) else None
  | NESign => if is_digit c then Some (Some NExp) else None
  | NExp => if is_digit c then Some (Some NExp) else Some None
  end.

Definition escape_value (c : code_unit) : option code_unit :=
  if c =? 34 then Some 34          (* quote *)
  else if c =? 92 then Some 92     (* backslash *)
  else if c =? 47 then Some 47     (* slash *)
  else if c =? 98 then Some 8      (* escape b *)
  else if c =? 102 then Some 12    (* escape f *)
  else if c =? 110 then Some 10    (* escape n *)
  else if c =? 114 then Some 13    (* escape r *)
  else if c =? 116 then Some 9     (* escape t *)
  else None.

Definition step (p : pstate) (c : code_unit) : option pstate :=
  let '(st, m) := p in
  match m with
  | MValue => if is_json_ws c then Some (st, MValue) else start_value st c
  | MArrFirst =>
      if is_json_ws c then Some (st, MArrFirst)
      else if c =? 93 then
        match st with
        | FArr acc :: st' => complete_value (JArray (rev acc)) st'
        | _ => None
        end
      else start_value st c
  | MObjFirst =>
      if is_json_ws c then Some (st, MObjFirst)
      else if c =? 125 then
        match st with
        | FObj ps :: st' => complete_value (JObject ps) st'
        | _ => None
        end
      else if c =? 34 then Some (st, MStr [])
      else None
  | MObjKey =>
      if is_json_ws c then Some (st, MObjKey)
      else if c =? 34 then Some (st, MStr [])
      else None
  | MColon =>
      if is_json_ws c then Some (st, MColon)
      else if c =? 58 then Some (st, MValue)
      else None
  | MAfter => step_after st c
  | MEnd v => if is_json_ws c then Some (st, MEnd v) else None
  | MStr acc =>
      if c =? 34 then complete_string (rev acc) st
      else if c =? 92 then Some (st, MEsc acc)
      else if c <? 32 then None
      else Some (st, MStr (c :: acc))
  | MEsc acc =>
      if c =? 117 (* u *) then Some (st, MUni acc 4 0)
      else match escape_value c with
           | Some e => Some (st, MStr (e :: acc))
           | None => None
           end
  | MUni acc k v =>
      match hex_value c with
      | Some d =>
          match k with
          | O | S O => Some (st, MStr ((v * 16 + d) :: acc))
          | S k' => Some (st, MUni acc k' (v * 16 + d))
          end
      | None => None
      end
  | MNum acc ns =>
      match num_step ns c with
      | Some (Some ns') => Some (st, MNum (c :: acc) ns')
      | Some None => step_completed (complete_value (JNumber (rev acc)) st) c
      | None => None
      end
  | MLit rest v =>
      match rest with
      | x :: rest' =>
          if c =? x then
            match rest' with
            | [] => complete_value v st
            | _ => Some (st, MLit rest' v)
            end
          else None
      | [] => None
      end
  end.

Fixpoint run (p : pstate) (s : jsstring) : option pstate :=
  match s with
  | [] => Some p
  | c :: s' =>
      match step p c with
      | Some p' => run p' s'
      | None => None
      end
  end.

(** At the end of the text exactly one complete top-level value must have
    been read. *)
Definition finish (p : pstate) : option JSON :=
  match p with
  | ([], MEnd v) => Some v
  | ([], MNum acc ns) => if num_accepting ns then Some (JNumber (rev acc)) else None
  | _ => None
  end.

(** [JSON.parse(text)] without a reviver: [None] stands for the SyntaxError
    it throws. *)
Definition JSON_parse (text : jsstring) : option JSON :=
  match run ([], MValue) text with
  | Some p => finish p
  | None => None
  end.

(** Reading a property of a parsed payload, [data.key], for the property
    names this program reads ([word], [definition], [chineseTranslation],
    [grammarNotes]; none of them is a built-in property of an array, a
    string, a number or a boolean).  [None] stands for the TypeError raised
    on [null]; [Some undefined] is an absent property. *)
Definition get_property (data : JSON) (key : jsstring) : option jsval :=
  match data with
  | JNull => None
  | JObject ps => Some (obj_get key ps)
  | _ => Some undefined
  end.

(* ================================================================== *)
(** * 3. Outcomes, effects and the platform *)
(* ================================================================== *)

(** Exceptions.  [InvalidResponse] is the [Error] that [lookupWord] throws
    for an unparsable payload; [ServiceError] is whatever the service call
    itself rejects with. *)
Inductive exn : Type :=
| InvalidResponse
| ServiceError (code : N)
| TypeError
| RangeError
| InvalidCharacterError
| NotSupportedError
| PlatformError (code : N).

(** How a call ends: it returns a value or throws. *)
Inductive outcome (A : Type) : Type :=
| Return (a : A)
| Throw (e : exn).
Arguments Return {A} a.
Arguments Throw {A} e.

Inductive Mode : Type := EN | CN.

Record HistoryItem : Type := { word : jsval; timestamp : Z }.

(** A mono or multi-channel buffer of samples.  A sample is a rational:
    every value stored below is an int16 divided by 2^15, which a 32-bit
    float holds exactly. *)
Record AudioBuffer : Type := {
  numberOfChannels : nat;
  frames : nat;
  bufferRate : Z;
  channels : list (list Q)
}.

(** Observable effects, in the order in which the code performs them. *)
Inductive event : Type :=
| ELookupRequest (mode : Mode) (w : jsstring)   (* generateContent, lookup model *)
| EAudioRequest (text : jsstring)               (* generateContent, TTS model *)
| EConsoleError
| EAlert (msg : jsstring)
| ESetItem (value : jsstring)                   (* localStorage.setItem('linguist_history', _) *)
| ESourceStop (id : nat)
| ESourceStart (id : nat) (buf : AudioBuffer)
| ENewAudioContext
| EResume
| ERecognizerStop (id : nat)
| ERecognizerStart (id : nat) (lang : jsstring)
| ESearch (transcript : jsstring) (mode : Mode). (* performSearch called from onresult *)

(** What the program takes from the JavaScript platform and no theorem
    below depends on: [===] on two Numbers given by their numerals, the
    string conversion of template literals, and [JSON.stringify] of the
    history list. *)
Class Platform : Type := {
  number_eq : jsstring -> jsstring -> bool;
  ToString : jsval -> jsstring;
  JSON_stringify : list HistoryItem -> jsstring
}.

(* ================================================================== *)
(** * 4. services/geminiService.ts *)
(* ================================================================== *)

(** The string handed to [JSON.parse]:
    [text.startsWith('```json') ? text.replace(/```json|```/g, '') : text]
    with [text = response.text.trim()]. *)
Definition jsonStr (responseText : jsstring) : jsstring :=
  let text := trim responseText in
  if startsWith fence_json text then replace_fences text else text.

(** [lookupWord(word, mode)], given how the awaited [generateContent] call
    ends: it rejects, or it resolves to a response whose [text] is a string
    or [undefined].  The call is awaited outside the [try], so a rejection
    propagates as it is; inside the [try], [response.text.trim()] (a
    TypeError when [text] is undefined) and [JSON.parse] are both remapped. *)
Definition lookupWord (w : jsstring) (mode : Mode)
    (response : outcome (option jsstring)) : outcome JSON * list event :=
  match response with
  | Throw e => (Throw e, [ELookupRequest mode w])
  | Return None => (Throw InvalidResponse, [ELookupRequest mode w; EConsoleError])
  | Return (Some t) =>
      match JSON_parse (jsonStr t) with
      | Some v => (Return v, [ELookupRequest mode w])
      | None => (Throw InvalidResponse, [ELookupRequest mode w; EConsoleError])
      end
  end.

(** The [required] list of the response schema sent with the request. *)
Definition required : list jsstring :=
  [str "word"; str "phonetic"; str "partOfSpeech"; str "definition";
   str "chineseTranslation"; str "examples"; str "grammarNotes"].

Definition has_property (d : JSON) (key : jsstring) : bool :=
  match get_property d key with
  | Some (Some _) => true
  | _ => false
  end.

Definition has_required (d : JSON) : bool := forallb (has_property d) required.

(** The response of the audio model, as far as [generateAudio] reads it:
    [response.candidates?.[0]?.content?.parts?.[0]?.inlineData?.data]. *)
Record Blob : Type := { data : option jsstring }.
Record Part : Type := { inlineData : option Blob }.
Record Content : Type := { parts : option (list Part) }.
Record Candidate : Type := { content : option Content }.
Record AudioResponse : Type := { candidates : option (list Candidate) }.

(** [x?.[0]] on an optional array. *)
Definition first {A : Type} (l : option (list A)) : option A :=
  match l with
  | Some (x :: _) => Some x
  | _ => None
  end.

Definition inline_data_of (r : AudioResponse) : option jsstring :=
  match first (candidates r) with
  | Some c =>
      match content c with
      | Some ct =>
          match first (parts ct) with
          | Some p =>
              match inlineData p with
              | Some b => data b
              | None => None
              end
          | None => None
          end
      | None => None
      end
  | None => None
  end.

(** [generateAudio(text)]: the whole body is inside [try]; the [catch]
    logs and returns [undefined]. *)
Definition generateAudio (text : jsstring) (response : outcome AudioResponse)
  : outcome (option jsstring) * list event :=
  match response with
  | Return r => (Return (inline_data_of r), [EAudioRequest text])
  | Throw _ => (Return None, [EAudioRequest text; EConsoleError])
  end.

(* ================================================================== *)
(** * 5. App.tsx: history and search *)
(* ================================================================== *)

(** A recognizer object: what it is doing, and the search mode its
    handlers closed over when [startVoiceSearch] created it.  The state keeps
    the recognizers created so far, by index. *)
Inductive recognizer_status : Type := Listening | Stopping | Ended.

Record recognizer : Type := {
  status : recognizer_status;
  closed_over : Mode
}.

Record AppState : Type := {
  query : jsval;
  loading : bool;
  result : JSON;                      (* [JNull] while nothing is displayed *)
  history : list HistoryItem;
  leftOpen : bool;
  rightOpen : bool;
  isListening : bool;
  transcriptFeedback : jsstring;
  searchMode : Mode;
  recognitionRef : option nat;        (* recognitionRef.current *)
  recognizers : list recognizer;
  storage : option jsstring           (* localStorage['linguist_history'] *)
}.

Definition set_loading (b : bool) (s : AppState) : AppState :=
  {| query := query s; loading := b; result := result s; history := history s;
     leftOpen := leftOpen s; rightOpen := rightOpen s;
     isListening := isListening s; transcriptFeedback := transcriptFeedback s;
     searchMode := searchMode s; recognitionRef := recognitionRef s;
     recognizers := recognizers s; storage := storage s |}.

Definition set_query (q : jsval) (s : AppState) : AppState :=
  {| query := q; loading := loading s; result := result s; history := history s;
     leftOpen := leftOpen s; rightOpen := rightOpen s;
     isListening := isListening s; transcriptFeedback := transcriptFeedback s;
     searchMode := searchMode s; recognitionRef := recognitionRef s;
     recognizers := recognizers s; storage := storage s |}.

Definition set_result (r : JSON) (s : AppState) : AppState :=
  {| query := query s; loading := loading s; result := r; history := history s;
     leftOpen := leftOpen s; rightOpen := rightOpen s;
     isListening := isListening s; transcriptFeedback := transcriptFeedback s;
     searchMode := searchMode s; recognitionRef := recognitionRef s;
     recognizers := recognizers s; storage := storage s |}.

Definition set_history (h : list HistoryItem) (v : jsstring) (s : AppState)
  : AppState :=
  {| query := query s; loading := loading s; result := result s; history := h;
     leftOpen := leftOpen s; rightOpen := rightOpen s;
     isListening := isListening s; transcriptFeedback := transcriptFeedback s;
     searchMode := searchMode s; recognitionRef := recognitionRef s;
     recognizers := recognizers s; storage := Some v |}.

Definition set_isListening (b : bool) (s : AppState) : AppState :=
  {| query := query s; loading := loading s; result := result s;
     history := history s; leftOpen := leftOpen s; rightOpen := rightOpen s;
     isListening := b; transcriptFeedback := transcriptFeedback s;
     searchMode := searchMode s; recognitionRef := recognitionRef s;
     recognizers := recognizers s; storage := storage s |}.

Definition set_transcriptFeedback (t : jsstring) (s : AppState) : AppState :=
  {| query := query s; loading := loading s; result := result s;
     history := history s; leftOpen := leftOpen s; rightOpen := rightOpen s;
     isListening := isListening s; transcriptFeedback := t;
     searchMode := searchMode s; recognitionRef := recognitionRef s;
     recognizers := recognizers s; storage := storage s |}.

Definition set_recognition (r : option nat) (rs : list recognizer)
    (s : AppState) : AppState :=
  {| query := query s; loading := loading s; result := result s;
     history := history s; leftOpen := leftOpen s; rightOpen := rightOpen s;
     isListening := isListening s; transcriptFeedback := transcriptFeedback s;
     searchMode := searchMode s; recognitionRef := r;
     recognizers := rs; storage := storage s |}.

Section App.
Context {P : Platform}.

(** [a === b] for a value read from a payload and a value stored in the
    history.  Arrays and objects compare by identity, and a freshly parsed
    one is never identical to a stored one. *)
Definition strict_eq (a b : jsval) : bool :=
  match a, b with
  | None, None => true
  | Some JNull, Some JNull => true
  | Some (JBool x), Some (JBool y) => Bool.eqb x y
  | Some (JNumber x), Some (JNumber y) => number_eq x y
  | Some (JString x), Some (JString y) => jsstring_eqb x y
  | _, _ => false
  end.

(** The list [updated] of [addToHistory]:
    [[newItem, ...history.filter(h => h.word !== word)].slice(0, 50)]
    with [newItem = { word, timestamp: Date.now() }]. *)
Definition updated (history : list HistoryItem) (w : jsval) (now : Z)
  : list HistoryItem :=
  let newItem := {| word := w; timestamp := now |} in
  firstn 50 (newItem :: filter (fun h => negb (strict_eq (word h) w)) history).

Definition addToHistory (s : AppState) (w : jsval) (now : Z)
  : AppState * list event :=
  let u := updated (history s) w now in
  (set_history u (JSON_stringify u) s, [ESetItem (JSON_stringify u)]).

Definition search_failed : jsstring :=
  str "Search failed. The AI might be busy or the query was unclear.".

(** [performSearch(searchQuery, mode)], given the outcome of the service
    call and the reading of the clock.  The [catch] covers the lookup and
    the three statements after it; [finally] clears the loading flag. *)
Definition performSearch (s : AppState) (searchQuery : jsstring) (mode : Mode)
    (response : outcome (option jsstring)) (now : Z) : AppState * list event :=
  let trimmed := trim searchQuery in
  match trimmed with
  | [] => (s, [])
  | _ :: _ =>
      let s1 := set_transcriptFeedback [] (set_loading true s) in
      match lookupWord trimmed mode response with
      | (Return d, tr) =>
          let s2 := set_result d s1 in
          match get_property d (str "word") with
          | Some w =>
              let '(s3, tr') := addToHistory s2 w now in
              (set_loading false (set_query w s3), tr ++ tr')
          | None =>
              (set_loading false s2, tr ++ [EConsoleError; EAlert search_failed])
          end
      | (Throw _, tr) =>
          (set_loading false s1, tr ++ [EConsoleError; EAlert search_failed])
      end
  end.



End App.

(** The entry that recording [op] creates. *)
Definition item_of (op : jsstring * Z) : HistoryItem :=
  {| word := Some (JString (fst op)); timestamp := snd op |}.



(* ================================================================== *)
(** * 6. App.tsx: voice input *)
(* ================================================================== *)

Definition recognizer_lang (m : Mode) : jsstring :=
  match m with
  | EN => str "en-US"
  | CN => str "zh-CN"
  end.

Definition voice_unsupported : jsstring :=
  str "Voice search is not supported in this browser.".

Fixpoint set_status (i : nat) (x : recognizer_status)
    (rs : list recognizer) : list recognizer :=
  match rs, i with
  | [], _ => []
  | r :: rs', O => {| status := x; closed_over := closed_over r |} :: rs'
  | r :: rs', S i' => r :: set_status i' x rs'
  end.

Definition status_at (rs : list recognizer) (i : nat)
  : option recognizer_status :=
  option_map status (nth_error rs i).

(** [recognition.stop()]: a listening recognizer stops capturing audio and
    winds down (it may still deliver a result before its [end] event); on
    one that is not listening the call does nothing. *)
Definition stop_recognizer (i : nat) (rs : list recognizer)
  : list recognizer :=
  match status_at rs i with
  | Some Listening => set_status i Stopping rs
  | _ => rs
  end.

(** [startVoiceSearch()]; [supported] tells whether the browser has a
    SpeechRecognition constructor.  The new recognizer gets the next free
    index and is listening from [recognition.start()] on. *)
Definition startVoiceSearch (s : AppState) (supported : bool)
  : AppState * list event :=
  if negb supported then (s, [EAlert voice_unsupported])
  else
    let '(rs, tr) :=
      match recognitionRef s with
      | Some i => (stop_recognizer i (recognizers s), [ERecognizerStop i])
      | None => (recognizers s, [])
      end in
    let id := List.length rs in
    (set_recognition (Some id)
       (rs ++ [{| status := Listening; closed_over := searchMode s |}]) s,
     tr ++ [ERecognizerStart id (recognizer_lang (searchMode s))]).

(** The handlers installed on a recognizer. *)
Definition onstart (s : AppState) : AppState :=
  set_transcriptFeedback (str "Listening...") (set_isListening true s).

Definition onend (s : AppState) : AppState := set_isListening false s.

Definition onerror (s : AppState) (code : jsstring) : AppState * list event :=
  (set_transcriptFeedback (str "Error: " ++ code) (set_isListening false s),
   [EConsoleError]).

(** [onresult]: [results] are the transcripts of [event.results] with their
    [isFinal] flags, the first one apart; [mode] is the search mode the
    handler closed over. *)
Definition onresult (s : AppState) (mode : Mode)
    (r0 : jsstring * bool) (results : list (jsstring * bool))
  : AppState * list event :=
  let transcript := concat (map fst (r0 :: results)) in
  let s1 := set_transcriptFeedback transcript s in
  if snd r0
  then (set_query (Some (JString transcript)) s1, [ESearch transcript mode])
  else (s1, []).

(** What can happen to the voice bridge: the user presses the microphone
    button or switches mode, or the platform fires an event of a recognizer
    that has not ended. *)
Inductive voice_input : Type :=
| PressMicrophone (supported : bool)
| SwitchMode (m : Mode)
| FireStart (i : nat)
| FireResult (i : nat) (r0 : jsstring * bool)
    (results : list (jsstring * bool))
| FireError (i : nat) (code : jsstring)
| FireEnd (i : nat).

Definition set_searchMode (m : Mode) (s : AppState) : AppState :=
  {| query := query s; loading := loading s; result := result s;
     history := history s; leftOpen := leftOpen s; rightOpen := rightOpen s;
     isListening := isListening s; transcriptFeedback := transcriptFeedback s;
     searchMode := m; recognitionRef := recognitionRef s;
     recognizers := recognizers s; storage := storage s |}.

Definition alive (s : AppState) (i : nat) : bool :=
  match status_at (recognizers s) i with
  | Some Listening | Some Stopping => true
  | _ => false
  end.

(** One transition; [None] when the platform cannot fire that event. *)
Definition voice_step (s : AppState) (e : voice_input)
  : option (AppState * list event) :=
  match e with
  | PressMicrophone supported => Some (startVoiceSearch s supported)
  | SwitchMode m => Some (set_searchMode m s, [])
  | FireStart i =>
      match status_at (recognizers s) i with
      | Some Listening => Some (onstart s, [])
      | _ => None
      end
  | FireResult i r0 results =>
      match nth_error (recognizers s) i with
      | Some r =>
          if alive s i then Some (onresult s (closed_over r) r0 results)
          else None
      | None => None
      end
  | FireError i code =>
      if alive s i then Some (onerror s code) else None
  | FireEnd i =>
      if alive s i
      then Some (set_recognition (recognitionRef s)
                   (set_status i Ended (recognizers s)) (onend s), [])
      else None
  end.

(** The state the component is mounted in: the panel flags follow the window
    width and the history is whatever the storage held. *)
Definition initial (s : AppState) : Prop :=
  query s = Some (JString []) /\ loading s = false /\ result s = JNull
  /\ isListening s = false /\ transcriptFeedback s = []
  /\ searchMode s = EN /\ recognitionRef s = None /\ recognizers s = [].

(** The states of the application: the voice transitions above, typing in
    the search box, and searches. *)
Inductive reachable {P : Platform} : AppState -> Prop :=
| reach_initial s : initial s -> reachable s
| reach_voice s e s' tr :
    reachable s -> voice_step s e = Some (s', tr) -> reachable s'
| reach_typing s q :
    reachable s -> reachable (set_query (Some (JString q)) s)
| reach_search s q mode response now :
    reachable s -> reachable (fst (performSearch s q mode response now)).


(* ================================================================== *)
(** * 7. components/WordDisplay.tsx: decoding the audio payload *)
(* ================================================================== *)

Definition byte := N.

(** ASCII whitespace of the forgiving-base64 decoder behind [atob]. *)
Definition is_ascii_ws (c : code_unit) : bool :=
  (c =? 9) || (c =? 10) || (c =? 12) || (c =? 13) || (c =? 32).

(** Position of a code unit in the base64 alphabet. *)
Definition sextet_of (c : code_unit) : option N :=
  if (65 <=? c) && (c <=? 90) then Some (c - 65)
  else if (97 <=? c) && (c <=? 122) then Some (c - 71)
  else if (48 <=? c) && (c <=? 57) then Some (c + 4)
  else if c =? 43 then Some 62
  else if c =? 47 then Some 63
  else None.

Fixpoint sextets_of (s : jsstring) : option (list N) :=
  match s with
  | [] => Some []
  | c :: s' =>
      match sextet_of c, sextets_of s' with
      | Some x, Some xs => Some (x :: xs)
      | _, _ => None
      end
  end.

(** 24 bits make three bytes; of 18 trailing bits the last two are dropped,
    of 12 the last four. *)
Fixpoint bytes_of_sextets (l : list N) : list byte :=
  match l with
  | a :: b :: c :: d :: r =>
      (a * 4 + b / 16) :: ((b mod 16) * 16 + c / 4) :: ((c mod 4) * 64 + d)
      :: bytes_of_sextets r
  | [a; b; c] => [a * 4 + b / 16; (b mod 16) * 16 + c / 4]
  | [a; b] => [a * 4 + b / 16]
  | _ => []
  end.

(** If the length is a multiple of four, one or two trailing [=] go. *)
Definition strip_padding (s : jsstring) : jsstring :=
  if (List.length s mod 4 =? 0)%nat then
    match rev s with
    | a :: b :: r =>
        if (a =? 61) && (b =? 61) then rev r
        else if a =? 61 then rev (b :: r)
        else s
    | [a] => if a =? 61 then [] else s
    | [] => s
    end
  else s.

(** [atob(base64)]: [None] stands for the InvalidCharacterError it throws.
    The result is a binary string, one code unit below 256 per byte. *)
Definition atob (base64 : jsstring) : option jsstring :=
  let d := strip_padding (filter (fun c => negb (is_ascii_ws c)) base64) in
  if (List.length d mod 4 =? 1)%nat then None
  else
    match sextets_of d with
    | Some l => Some (bytes_of_sextets l)
    | None => None
    end.

(** [decodeBase64]: each code unit of the binary string is stored into a
    Uint8Array. *)
Definition decodeBase64 (base64 : jsstring) : outcome (list byte) :=
  match atob base64 with
  | Some binaryString => Return (map (fun c => c mod 256) binaryString)
  | None => Throw InvalidCharacterError
  end.

(** An element of an Int16Array: two bytes read as a two's-complement
    number, low byte first (typed arrays use the byte order of the platform,
    little-endian wherever browsers run). *)
Definition int16_of_bytes (lo hi : byte) : Z :=
  let u := Z.of_N (lo + 256 * hi) in
  (if u <? 32768 then u else u - 65536)%Z.

Fixpoint int16_elements (bs : list byte) : list Z :=
  match bs with
  | lo :: hi :: r => int16_of_bytes lo hi :: int16_elements r
  | _ => []
  end.

(** [new Int16Array(data.buffer)]: a RangeError unless the byte length is a
    multiple of two. *)
Definition Int16Array (bs : list byte) : outcome (list Z) :=
  if Nat.even (List.length bs) then Return (int16_elements bs)
  else Throw RangeError.

Definition numChannels : nat := 1.
Definition sampleRate : Z := 24000.

(** [ctx.createBuffer(numberOfChannels, length, sampleRate)] of the Web Audio
    API: a NotSupportedError when an argument is zero; otherwise a buffer of
    silence.  (The rate has a nominal range too; the 24000 Hz used here is
    inside the 8000 Hz to 96000 Hz that every implementation supports.) *)
Definition createBuffer (nch len : nat) (rate : Z) : outcome AudioBuffer :=
  if (nch =? 0)%nat || (len =? 0)%nat || (rate <=? 0)%Z
  then Throw NotSupportedError
  else Return {| numberOfChannels := nch; frames := len; bufferRate := rate;
                 channels := repeat (repeat 0%Q len) nch |}.

(** [x / 32768.0] for an int16 [x]. *)
Definition normalize (x : Z) : Q := Qmake x 32768.

(** The two loops of [decodeAudioData]:
    [channelData[i] = dataInt16[i * numChannels + channel] / 32768.0]. *)
Definition fill_channel (dataInt16 : list Z) (frameCount channel : nat)
  : list Q :=
  map (fun i => normalize (nth (i * numChannels + channel) dataInt16 0%Z))
      (seq 0 frameCount).

Definition decodeAudioData (bytes : list byte) : outcome AudioBuffer :=
  match Int16Array bytes with
  | Throw e => Throw e
  | Return dataInt16 =>
      let frameCount := Nat.div (List.length dataInt16) numChannels in
      match createBuffer numChannels frameCount sampleRate with
      | Throw e => Throw e
      | Return buffer =>
          Return {| numberOfChannels := numberOfChannels buffer;
                    frames := frames buffer;
                    bufferRate := bufferRate buffer;
                    channels := map (fill_channel dataInt16 frameCount)
                                    (seq 0 numChannels) |}
      end
  end.

(** The decode path of the bridge. *)
Definition decode_path (base64 : jsstring) : outcome AudioBuffer :=
  match decodeBase64 base64 with
  | Throw e => Throw e
  | Return audioData => decodeAudioData audioData
  end.

(* ================================================================== *)
(** * 8. components/WordDisplay.tsx: narration playback *)
(* ================================================================== *)

Record PlayerState : Type := {
  isPlaying : bool;
  isTtsLoading : bool;
  sourceNodeRef : option nat;     (* sourceNodeRef.current, a source by index *)
  audioContextRef : bool;         (* audioContextRef.current is set *)
  sources : nat                   (* buffer sources created so far *)
}.

Definition set_isPlaying (b : bool) (s : PlayerState) : PlayerState :=
  {| isPlaying := b; isTtsLoading := isTtsLoading s;
     sourceNodeRef := sourceNodeRef s; audioContextRef := audioContextRef s;
     sources := sources s |}.

Definition set_isTtsLoading (b : bool) (s : PlayerState) : PlayerState :=
  {| isPlaying := isPlaying s; isTtsLoading := b;
     sourceNodeRef := sourceNodeRef s; audioContextRef := audioContextRef s;
     sources := sources s |}.

Definition set_sourceNodeRef (r : option nat) (s : PlayerState) : PlayerState :=
  {| isPlaying := isPlaying s; isTtsLoading := isTtsLoading s;
     sourceNodeRef := r; audioContextRef := audioContextRef s;
     sources := sources s |}.

Definition set_audioContextRef (b : bool) (s : PlayerState) : PlayerState :=
  {| isPlaying := isPlaying s; isTtsLoading := isTtsLoading s;
     sourceNodeRef := sourceNodeRef s; audioContextRef := b;
     sources := sources s |}.

Definition new_source (s : PlayerState) : PlayerState :=
  {| isPlaying := isPlaying s; isTtsLoading := isTtsLoading s;
     sourceNodeRef := sourceNodeRef s; audioContextRef := audioContextRef s;
     sources := S (sources s) |}.

(** The phases of the playback state machine, read off the two flags. *)
Inductive phase : Type := Idle | Loading | Playing.

Definition phase_of (s : PlayerState) : phase :=
  if isTtsLoading s then Loading
  else if isPlaying s then Playing
  else Idle.

(** How the calls made during one narration end: the audio service, the
    AudioContext constructor, [ctx.state] and [ctx.resume()], and the three
    calls that build and start the source. *)
Record Narration : Type := {
  tts : outcome AudioResponse;
  newAudioContext : outcome unit;
  suspended : bool;
  resume : outcome unit;
  createBufferSource : outcome unit;
  connect : outcome unit;
  start : outcome unit
}.

Definition voice_failed : jsstring :=
  str "Failed to generate voice. Please try again.".

Section WordDisplay.
Context {P : Platform}.

(** The narration string of [handleReadAloud]; [None] is the TypeError of a
    property read on [null]. *)
Definition fullText (d : JSON) : option jsstring :=
  match get_property d (str "word"), get_property d (str "definition"),
        get_property d (str "chineseTranslation"),
        get_property d (str "grammarNotes") with
  | Some w, Some m, Some c, Some g =>
      Some (str "Word: " ++ ToString w ++ str ". Meaning: " ++ ToString m
            ++ str ". Chinese translation is " ++ ToString c
            ++ str ". Here is the detailed explanation: " ++ ToString g)
  | _, _, _, _ => None
  end.

(** The [catch] of the playback block. *)
Definition playback_failed (s : PlayerState) (tr : list event)
  : PlayerState * list event * outcome unit :=
  (set_isPlaying false s, tr ++ [EConsoleError], Return tt).

(** The [try] block of [handleReadAloud]. *)
Definition play (s : PlayerState) (base64Audio : jsstring) (env : Narration)
    (tr : list event) : PlayerState * list event * outcome unit :=
  match decodeBase64 base64Audio with
  | Throw _ => playback_failed s tr
  | Return audioData =>
      match decodeAudioData audioData with
      | Throw _ => playback_failed s tr
      | Return audioBuffer =>
          match createBufferSource env with
          | Throw _ => playback_failed s tr
          | Return _ =>
              let id := sources s in
              let s1 := new_source s in
              match connect env with
              | Throw _ => playback_failed s1 tr
              | Return _ =>
                  let s2 := set_sourceNodeRef (Some id) s1 in
                  match start env with
                  | Throw _ => playback_failed s2 tr
                  | Return _ =>
                      (set_isPlaying true s2,
                       tr ++ [ESourceStart id audioBuffer], Return tt)
                  end
              end
          end
      end
  end.

(** [handleReadAloud()] on the record [d] being displayed. *)
Definition handleReadAloud (s : PlayerState) (d : JSON) (env : Narration)
  : PlayerState * list event * outcome unit :=
  if isPlaying s then
    match sourceNodeRef s with
    | Some i =>
        (set_isPlaying false (set_sourceNodeRef None s), [ESourceStop i],
         Return tt)
    | None => (set_isPlaying false s, [], Return tt)
    end
  else
    let s1 := set_isTtsLoading true s in
    match fullText d with
    | None => (s1, [], Throw TypeError)
    | Some text =>
        match generateAudio text (tts env) with
        | (Throw e, tr) => (s1, tr, Throw e)
        | (Return base64Audio, tr) =>
            let s2 := set_isTtsLoading false s1 in
            match base64Audio with
            | None | Some [] => (s2, tr ++ [EAlert voice_failed], Return tt)
            | Some (c :: b) =>
                let made :=
                  if audioContextRef s2 then Return (s2, tr)
                  else
                    match newAudioContext env with
                    | Return _ =>
                        Return (set_audioContextRef true s2,
                                tr ++ [ENewAudioContext])
                    | Throw e => Throw e
                    end in
                match made with
                | Throw e => (s2, tr, Throw e)
                | Return (s3, tr3) =>
                    if suspended env then
                      match resume env with
                      | Return _ => play s3 (c :: b) env (tr3 ++ [EResume])
                      | Throw e => (s3, tr3 ++ [EResume], Throw e)
                      end
                    else play s3 (c :: b) env tr3
                end
            end
        end
    end.

(** [source.onended]. *)
Definition onended (s : PlayerState) : PlayerState := set_isPlaying false s.

(** The cleanup of the effect that runs when another record is displayed. *)
Definition cleanup (s : PlayerState) : PlayerState * list event :=
  match sourceNodeRef s with
  | Some i => (s, [ESourceStop i])
  | None => (s, [])
  end.

End WordDisplay.

(* ================================================================== *)
(** * 9. The producer side of the audio payload *)
(* ================================================================== *)

(** Modelled from the spec: the audio service and its encoder are not part
    of the sources; the payload is described as base64 of little-endian
    16-bit signed PCM.  The definitions of this section build such
    payloads.  First the base64 alphabet. *)
Definition char_of_sextet (n : N) : code_unit :=
  if n <? 26 then n + 65
  else if n <? 52 then n + 71
  else if n <? 62 then n - 4
  else if n =? 62 then 43
  else 47.

(** Modelled from the spec: base64 encoding of a byte sequence, with
    padding. *)
Fixpoint base64_encode (bs : list byte) : jsstring :=
  match bs with
  | a :: b :: c :: r =>
      char_of_sextet (a / 4) :: char_of_sextet ((a mod 4) * 16 + b / 16)
      :: char_of_sextet ((b mod 16) * 4 + c / 64) :: char_of_sextet (c mod 64)
      :: base64_encode r
  | [a; b] =>
      [char_of_sextet (a / 4); char_of_sextet ((a mod 4) * 16 + b / 16);
       char_of_sextet ((b mod 16) * 4); 61]
  | [a] => [char_of_sextet (a / 4); char_of_sextet ((a mod 4) * 16); 61; 61]
  | [] => []
  end.

(** The six-bit groups and the padding that [base64_encode] writes. *)
Fixpoint sextets (bs : list byte) : list N :=
  match bs with
  | a :: b :: c :: r =>
      (a / 4) :: ((a mod 4) * 16 + b / 16) :: ((b mod 16) * 4 + c / 64)
      :: (c mod 64) :: sextets r
  | [a; b] => [a / 4; (a mod 4) * 16 + b / 16; (b mod 16) * 4]
  | [a] => [a / 4; (a mod 4) * 16]
  | [] => []
  end.

Fixpoint padding (bs : list byte) : jsstring :=
  match bs with
  | _ :: _ :: _ :: r => padding r
  | [_; _] => [61]
  | [_] => [61; 61]
  | [] => []
  end.

Definition is_byte (b : byte) : Prop := b < 256.

Definition is_int16 (x : Z) : Prop := (-32768 <= x <= 32767)%Z.

(** Modelled from the spec: an int16 as two bytes in two's complement, low
    byte first. *)
Definition int16_bytes (x : Z) : list byte :=
  let u := (x mod 65536)%Z in
  [Z.to_N (u mod 256); Z.to_N (u / 256)].

(** Modelled from the spec: raw PCM, the samples one after the other. *)
Definition pcm_bytes (samples : list Z) : list byte :=
  flat_map int16_bytes samples.

(** The buffer made from a non-empty sequence of int16 samples. *)
Definition mono_buffer (samples : list Z) : AudioBuffer :=
  {| numberOfChannels := 1; frames := List.length samples;
     bufferRate := 24000; channels := [map normalize samples] |}.

(** Modelled from the spec: a quantizer takes a normalized sample to an
    int16 within one step of the sample scaled by 32768 (rounding, flooring
    and truncation, each with saturation, all do). *)
Definition quantizer (q : Q -> Z) : Prop :=
  forall x, (-1 <= x <= 1)%Q ->
            is_int16 (q x) /\ (Qabs (inject_Z (q x) - x * 32768) <= 1)%Q.

(** Modelled from the spec: the payload for normalized samples. *)
Definition encode_samples (q : Q -> Z) (xs : list Q) : jsstring :=
  base64_encode (pcm_bytes (map q xs)).

(** Modelled from the spec: the usual quantizer: scale, round to nearest,
    saturate. *)
Definition quantize (x : Q) : Z :=
  Z.max (-32768) (Z.min 32767 (Qfloor (x * 32768 + (1 # 2))%Q)).

(* ================================================================== *)
(** * 10. A platform to run examples on *)
(* ================================================================== *)

(** [JSON.stringify] and the string conversion, exact except for Numbers,
    which this instance prints and compares by their numerals (the concrete
    runs below involve no number). *)
Definition hex_digit (n : N) : code_unit :=
  if n <? 10 then n + 48 else n + 87.

Definition unicode_escape (c : code_unit) : jsstring :=
  [92; 117; hex_digit (c / 4096); hex_digit ((c / 256) mod 16);
   hex_digit ((c / 16) mod 16); hex_digit (c mod 16)].

Definition is_high_surrogate (c : code_unit) : bool :=
  (55296 <=? c) && (c <=? 56319).
Definition is_low_surrogate (c : code_unit) : bool :=
  (56320 <=? c) && (c <=? 57343).

Definition quote_unit (c : code_unit) : jsstring :=
  if c =? 8 then [92; 98]
  else if c =? 9 then [92; 116]
  else if c =? 10 then [92; 110]
  else if c =? 12 then [92; 102]
  else if c =? 13 then [92; 114]
  else if c =? 34 then [92; 34]
  else if c =? 92 then [92; 92]
  else if c <? 32 then unicode_escape c
  else if is_high_surrogate c || is_low_surrogate c then unicode_escape c
  else [c].

Fixpoint quote_units (s : jsstring) : jsstring :=
  match s with
  | [] => []
  | c :: r =>
      match r with
      | d :: r' =>
          if is_high_surrogate c && is_low_surrogate d
          then c :: d :: quote_units r'
          else quote_unit c ++ quote_units r
      | [] => quote_unit c
      end
  end.

Definition quote (s : jsstring) : jsstring := [34] ++ quote_units s ++ [34].

Fixpoint join (sep : jsstring) (l : list jsstring) : jsstring :=
  match l with
  | [] => []
  | [x] => x
  | x :: r => x ++ sep ++ join sep r
  end.

Fixpoint stringify (v : JSON) : jsstring :=
  match v with
  | JNull => str "null"
  | JBool true => str "true"
  | JBool false => str "false"
  | JNumber n => n
  | JString s => quote s
  | JArray l => [91] ++ join [44] (map stringify l) ++ [93]
  | JObject ps =>
      [123] ++ join [44] (map (fun kv => quote (fst kv) ++ [58]
                                          ++ stringify (snd kv)) ps) ++ [125]
  end.

Definition decimal (z : Z) : jsstring :=
  str (DecimalString.NilZero.string_of_int (Z.to_int z)).

(** An entry whose word is [undefined] is written without that property. *)
Definition stringify_item (it : HistoryItem) : jsstring :=
  [123]
  ++ match word it with
     | Some v => quote (str "word") ++ [58] ++ stringify v ++ [44]
     | None => []
     end
  ++ quote (str "timestamp") ++ [58] ++ decimal (timestamp it) ++ [125].

Definition stringify_history (h : list HistoryItem) : jsstring :=
  [91] ++ join [44] (map stringify_item h) ++ [93].

Fixpoint ToString_simple (v : JSON) : jsstring :=
  match v with
  | JNull => str "null"
  | JBool true => str "true"
  | JBool false => str "false"
  | JNumber n => n
  | JString s => s
  | JArray l =>
      join [44] (map (fun x => match x with
                               | JNull => []
                               | _ => ToString_simple x
                               end) l)
  | JObject _ => str "[object Object]"
  end.

Definition example_platform : Platform :=
  {| number_eq := jsstring_eqb;
     ToString := fun v => match v with
                          | Some x => ToString_simple x
                          | None => str "undefined"
                          end;
     JSON_stringify := stringify_history |}.

(** The application before anything was typed, said or stored. *)
Definition empty_app : AppState :=
  {| query := Some (JString []); loading := false; result := JNull;
     history := []; leftOpen := true; rightOpen := true;
     isListening := false; transcriptFeedback := [];
     searchMode := EN; recognitionRef := None;
     recognizers := []; storage := None |}.




(** A complete record whose grammar notes quote a code fence, the text the
    service would send for it, and the same text inside a fence. *)
Definition fence_note : JSON :=
  JObject
    [(str "word", JString (str "fence"));
     (str "phonetic", JString (str "/fens/"));
     (str "partOfSpeech", JString (str "noun"));
     (str "definition", JString (str "a barrier, or the marker of a code block"));
     (str "chineseTranslation", JString [22260; 26639]);
     (str "examples", JArray []);
     (str "grammarNotes", JString (str "A code block opens with ``` in markdown."))].

Definition fence_note_text : jsstring := stringify fence_note.

Definition fenced (t : jsstring) : jsstring :=
  str "```json" ++ [10] ++ t ++ [10] ++ str "```".

(** What the client makes of the fenced text: the notes have lost the
    three backquotes. *)
Definition fence_note_stripped : JSON :=
  JObject
    [(str "word", JString (str "fence"));
     (str "phonetic", JString (str "/fens/"));
     (str "partOfSpeech", JString (str "noun"));
     (str "definition", JString (str "a barrier, or the marker of a code block"));
     (str "chineseTranslation", JString [22260; 26639]);
     (str "examples", JArray []);
     (str "grammarNotes", JString (str "A code block opens with  in markdown."))].

(** An audio response without any candidate. *)
Definition no_candidates : AudioResponse := {| candidates := None |}.

Definition with_tts (r : outcome AudioResponse) (env : Narration)
  : Narration :=
  {| tts := r; newAudioContext := newAudioContext env;
     suspended := suspended env; resume := resume env;
     createBufferSource := createBufferSource env;
     connect := connect env; start := start env |}.

(** The states of the player: the button is pressed, the source ends, or
    another record is displayed. *)
Inductive player_input : Type :=
| Press (d : JSON) (env : Narration)
| SourceEnded
| RecordChanged.

Definition initial_player : PlayerState :=
  {| isPlaying := false; isTtsLoading := false; sourceNodeRef := None;
     audioContextRef := false; sources := 0 |}.

Definition player_step {P : Platform} (s : PlayerState) (i : player_input)
  : PlayerState * list event :=
  match i with
  | Press d env => fst (handleReadAloud s d env)
  | SourceEnded => (onended s, [])
  | RecordChanged => cleanup s
  end.

Inductive player_reachable {P : Platform} : PlayerState -> Prop :=
| player_initial : player_reachable initial_player
| player_next s i :
    player_reachable s -> player_reachable (fst (player_step s i)).

(** What [generateAudio] hands to [handleReadAloud]. *)
Definition payload_of (env : Narration) : option jsstring :=
  match tts env with
  | Return r => inline_data_of r
  | Throw _ => None
  end.


(** The audio context is there, or can be made, and is running or resumes. *)
Definition context_ready (s : PlayerState) (env : Narration) : Prop :=
  (audioContextRef s = true \/ newAudioContext env = Return tt)
  /\ (suspended env = false \/ resume env = Return tt).


(** A response carrying one sample of silence, and a platform on which
    every call succeeds. *)
Definition silence_response : AudioResponse :=
  {| candidates :=
       Some [{| content :=
                  Some {| parts :=
                            Some [{| inlineData :=
                                       Some {| data := Some (str "AAA=") |} |}]
                       |} |}] |}.

Definition all_fine : Narration :=
  {| tts := Return silence_response; newAudioContext := Return tt;
     suspended := true; resume := Return tt;
     createBufferSource := Return tt; connect := Return tt;
     start := Return tt |}.






(** While something plays, [sourceNodeRef] holds its source. *)
Definition playing_has_source (s : PlayerState) : Prop :=
  isPlaying s = true -> exists i, sourceNodeRef s = Some i.

(** The text contains three backquotes in a row somewhere. *)
Fixpoint has_fence (s : jsstring) : bool :=
  match s with
  | [] => false
  | _ :: r => startsWith fence s || has_fence r
  end.

(** In a parser state reached from the start, the rest of a literal being
    read holds no whitespace. *)
Definition literal_rest_ok (p : pstate) : Prop :=
  match snd p with
  | MLit rest _ => Forall (fun c => is_js_whitespace c = false) rest
  | _ => True
  end.

(** The older single-file version of the application (its [lookupWord]
    parses the trimmed text without removing fences, and [handleSearch]
    builds the history list inline). *)
Definition lookupWord_v1 (w : jsstring)
    (response : outcome (option jsstring)) : outcome JSON * list event :=
  match response with
  | Throw e => (Throw e, [ELookupRequest EN w])
  | Return None => (Throw InvalidResponse, [ELookupRequest EN w; EConsoleError])
  | Return (Some t) =>
      match JSON_parse (trim t) with
      | Some v => (Return v, [ELookupRequest EN w])
      | None => (Throw InvalidResponse, [ELookupRequest EN w; EConsoleError])
      end
  end.

Definition analyze_failed : jsstring :=
  str "Failed to analyze word. Check your network or try again.".

Definition handleSearch {P : Platform} (s : AppState) (q : jsstring)
    (response : outcome (option jsstring)) (now : Z) : AppState * list event :=
  match trim q with
  | [] => (s, [])
  | _ :: _ =>
      let s1 := set_loading true s in
      match lookupWord_v1 q response with
      | (Return d, tr) =>
          let s2 := set_result d s1 in
          match get_property d (str "word") with
          | Some w =>
              let updatedHistory := updated (history s2) w now in
              (set_loading false
                 (set_history updatedHistory (JSON_stringify updatedHistory) s2),
               tr ++ [ESetItem (JSON_stringify updatedHistory)])
          | None => (set_loading false s2, tr ++ [EAlert analyze_failed])
          end
      | (Throw _, tr) => (set_loading false s1, tr ++ [EAlert analyze_failed])
      end
  end.

(* ================================================================== *)
(** * 11. App.tsx: the callers of [performSearch] *)
(* ================================================================== *)

Section Callers.
Context {P : Platform}.

(** [handleFormSubmit]: [performSearch(query, searchMode)] on the query the
    state holds.  When that is not a string, [searchQuery.trim()] is a
    TypeError, which rejects the promise before anything else is done. *)
Definition handleFormSubmit (s : AppState)
    (response : outcome (option jsstring)) (now : Z)
  : AppState * list event * outcome unit :=
  match query s with
  | Some (JString q) =>
      (performSearch s q (searchMode s) response now, Return tt)
  | _ => (s, [], Throw TypeError)
  end.

(** A click on an entry of the history panel:
    [performSearch(item.word, 'EN')]. *)
Definition history_click (s : AppState) (it : HistoryItem)
    (response : outcome (option jsstring)) (now : Z)
  : AppState * list event * outcome unit :=
  match word it with
  | Some (JString w) => (performSearch s w EN response now, Return tt)
  | _ => (s, [], Throw TypeError)
  end.

End Callers.

(* ================================================================== *)
(** * 12. Runs of the application and of the player *)
(* ================================================================== *)

(** A string neither begins nor ends with whitespace. *)
Definition no_outer_whitespace (w : jsstring) : Prop :=
  (forall c r, w = c :: r -> is_js_whitespace c = false)
  /\ (forall c r, w = r ++ [c] -> is_js_whitespace c = false).

(** The value is a string. *)
Definition is_string (v : jsval) : Prop := exists x, v = Some (JString x).

(** A code unit a JSON value can begin with. *)
Definition value_start (c : code_unit) : bool :=
  (c =? 123) || (c =? 91) || (c =? 34) || (c =? 45) || is_digit c
  || (c =? 116) || (c =? 102) || (c =? 110).

(** [s'] comes from [s] by transitions of the application: events of the
    voice bridge, typing, searches. *)
Inductive evolves {P : Platform} : AppState -> AppState -> Prop :=
| evolves_refl s : evolves s s
| evolves_voice s s1 e s' tr :
    evolves s s1 -> voice_step s1 e = Some (s', tr) -> evolves s s'
| evolves_typing s s1 q :
    evolves s s1 -> evolves s (set_query (Some (JString q)) s1)
| evolves_search s s1 q mode response now :
    evolves s s1 -> evolves s (fst (performSearch s1 q mode response now)).

(** The response text, trimmed, does not open with the json fence marker. *)
Definition unfenced (response : outcome (option jsstring)) : Prop :=
  match response with
  | Return (Some t) => startsWith fence_json (trim t) = false
  | _ => True
  end.

(** A sample value the Web Audio API plays without clipping. *)
Definition in_unit_range (x : Q) : Prop := (-1 <= x)%Q /\ (x < 1)%Q.

(** The code unit belongs neither to the base64 alphabet nor to what the
    decoder skips or strips. *)
Definition foreign (c : code_unit) : Prop :=
  is_ascii_ws c = false /\ sextet_of c = None /\ c <> 61.

(** A session of the player: the inputs one after the other, with all the
    effects in order. *)
Fixpoint player_run {P : Platform} (s : PlayerState)
    (inputs : list player_input) : PlayerState * list event :=
  match inputs with
  | [] => (s, [])
  | i :: rest =>
      let '(s1, tr1) := player_step s i in
      let '(s2, tr2) := player_run s1 rest in
      (s2, tr1 ++ tr2)
  end.

Definition is_new_context (e : event) : bool :=
  match e with
  | ENewAudioContext => true
  | _ => false
  end.

(** The effects of a narration that succeeds, in order. *)
Definition narration_trace (s : PlayerState) (env : Narration)
    (text : jsstring) (buf : AudioBuffer) : list event :=
  [EAudioRequest text]
  ++ (if audioContextRef s then [] else [ENewAudioContext])
  ++ (if suspended env then [EResume] else [])
  ++ [ESourceStart (sources s) buf].

(** The current source is one that was created, and while something plays
    it is the one created last. *)
Definition source_is_latest (s : PlayerState) : Prop :=
  (forall i, sourceNodeRef s = Some i -> (i < sources s)%nat)
  /\ (isPlaying s = true -> sourceNodeRef s = Some (pred (sources s))).

(** The recognizer [i] exists and its handlers closed over the mode [m]. *)
Definition closed_over_at (s : AppState) (i : nat) (m : Mode) : Prop :=
  option_map closed_over (nth_error (recognizers s) i) = Some m.

(* ================================================================== *)
(** * Theorems *)
(* ================================================================== *)

(** ** Strings *)

Lemma jsstring_eqb_eq (a b : jsstring) : jsstring_eqb a b = true <-> a = b.
Proof.
  revert b; induction a as [|x a IH]; intros [|y b]; simpl;
    try (split; [discriminate | discriminate]); try tauto.
  rewrite andb_true_iff, N.eqb_eq, IH.
  split; [intros [-> ->]; reflexivity | intros [= -> ->]; auto].
Qed.

Lemma jsstring_eqb_refl (a : jsstring) : jsstring_eqb a a = true.
Proof. apply jsstring_eqb_eq; reflexivity. Qed.

Lemma jsstring_eqb_neq (a b : jsstring) : jsstring_eqb a b = false <-> a <> b.
Proof.
  rewrite <- jsstring_eqb_eq. destruct (jsstring_eqb a b); split; congruence.
Qed.

Lemma jsstring_eqb_sym (a b : jsstring) : jsstring_eqb a b = jsstring_eqb b a.
Proof.
  destruct (jsstring_eqb b a) eqn:E.
  - apply jsstring_eqb_eq in E; subst; apply jsstring_eqb_refl.
  - apply jsstring_eqb_neq in E; apply jsstring_eqb_neq; congruence.
Qed.

Lemma trimStart_blank (q : jsstring) : blank q -> trimStart q = [].
Proof.
  induction 1 as [|c q Hc _ IH]; simpl; [reflexivity|].
  rewrite Hc; exact IH.
Qed.

Lemma trimStart_nil_blank (q : jsstring) : trimStart q = [] -> blank q.
Proof.
  unfold blank; induction q as [|c q IH]; simpl; intros H; [constructor|].
  destruct (is_js_whitespace c) eqn:E; [|discriminate].
  constructor; auto.
Qed.

Lemma trimStart_suffix (q : jsstring) :
  exists p, blank p /\ q = p ++ trimStart q.
Proof.
  induction q as [|c q [p [Hp Hq]]]; simpl.
  - exists []; split; [constructor | reflexivity].
  - destruct (is_js_whitespace c) eqn:E.
    + exists (c :: p); split; [constructor; assumption|].
      simpl; f_equal; exact Hq.
    + exists []; split; [constructor | reflexivity].
Qed.

(** A string trims to the empty string exactly when it is empty or made of
    whitespace only. *)
Lemma trim_nil_iff (q : jsstring) : trim q = [] <-> blank q.
Proof.
  unfold trim, trimEnd; split.
  - intros H.
    assert (H1 : trimStart (rev (trimStart q)) = []).
    { rewrite <- (rev_involutive (trimStart _)), H; reflexivity. }
    apply trimStart_nil_blank in H1.
    destruct (trimStart_suffix q) as [p [Hp Hq]].
    rewrite Hq; unfold blank; apply Forall_app; split; [exact Hp|].
    unfold blank in H1; apply Forall_rev in H1.
    rewrite rev_involutive in H1; exact H1.
  - intros H; rewrite (trimStart_blank q H); reflexivity.
Qed.

(** ** The history list *)

Section HistoryFacts.
Context {P : Platform}.



Lemma firstn_succ_cons {A : Type} (n : nat) (x : A) (l : list A) :
  firstn (S n) (x :: l) = x :: firstn n l.
Proof. reflexivity. Qed.

Lemma updated_cons (h : list HistoryItem) (w : jsval) (now : Z) :
  updated h w now =
  {| word := w; timestamp := now |}
  :: firstn 49 (filter (fun it => negb (strict_eq (word it) w)) h).
Proof. unfold updated; apply firstn_succ_cons. Qed.

Lemma updated_length (h : list HistoryItem) (w : jsval) (now : Z) :
  (List.length (updated h w now) <= 50)%nat.
Proof. unfold updated; rewrite length_firstn; apply Nat.le_min_l. Qed.











End HistoryFacts.

(** ** Order of the history *)

Section Order.
Variable R : Z -> Z -> Prop.





End Order.









(** ** C3, C4: the history store *)



(** The older [handleSearch] builds the same list inline. *)
Lemma handleSearch_history {P : Platform} (s : AppState) (q : jsstring)
    (t : jsstring) (now : Z) (d : JSON) (w : jsval) :
  trim q <> [] -> JSON_parse (trim t) = Some d ->
  get_property d (str "word") = Some w ->
  history (fst (handleSearch s q (Return (Some t)) now))
  = updated (history s) w now.
Proof.
  intros Hq Ht Hw; unfold handleSearch, lookupWord_v1.
  destruct (trim q); [congruence|].
  rewrite Ht, Hw; reflexivity.
Qed.



(** ** C8: blank queries *)

(** C8. On a query that is empty or consists of whitespace only,
    [performSearch] returns at once: no service request or any other effect,
    and the whole application state, loading flag, displayed result, history
    and stored history included, is as before. *)
Theorem performSearch_blank_noop {P : Platform} (s : AppState)
    (q : jsstring) (mode : Mode) (response : outcome (option jsstring))
    (now : Z) :
  blank q -> performSearch s q mode response now = (s, []).
Proof.
  intros H; apply trim_nil_iff in H.
  unfold performSearch; rewrite H; reflexivity.
Qed.

(** On any other query the service is called, with the trimmed query. *)
Lemma performSearch_nonblank_requests {P : Platform} (s : AppState)
    (q : jsstring) (mode : Mode) (response : outcome (option jsstring))
    (now : Z) :
  ~ blank q ->
  exists tr,
    snd (performSearch s q mode response now)
    = ELookupRequest mode (trim q) :: tr.
Proof.
  intros H; rewrite <- trim_nil_iff in H; unfold performSearch.
  destruct (trim q) as [|c r] eqn:E; [congruence|].
  unfold lookupWord.
  destruct response as [[t|]|e];
    [destruct (JSON_parse (jsonStr t)) as [d|];
     [destruct (get_property d (str "word"))|]| |];
    simpl; eauto.
Qed.

Lemma performSearch_blank_noop_witness :
  performSearch (P := example_platform) empty_app [32; 9; 12288; 10] CN
    (Return (Some (str "{}"))) 7%Z = (empty_app, []).
Proof.
  apply performSearch_blank_noop; repeat constructor.
Defined.

(** ** The parser and whitespace *)

Lemma run_app (p : pstate) (s1 s2 : jsstring) :
  run p (s1 ++ s2)
  = match run p s1 with
    | Some p' => run p' s2
    | None => None
    end.
Proof.
  revert p; induction s1 as [|c s1 IH]; intros p; simpl; [reflexivity|].
  destruct (step p c); auto.
Qed.

Lemma json_ws_cases (c : code_unit) :
  is_json_ws c = true -> c = 9 \/ c = 10 \/ c = 13 \/ c = 32.
Proof.
  unfold is_json_ws; rewrite !orb_true_iff, !N.eqb_eq; tauto.
Qed.

Lemma js_ws_cases (c : code_unit) :
  is_js_whitespace c = true ->
  In c [9; 10; 11; 12; 13; 32; 160; 5760; 8192; 8193; 8194; 8195; 8196;
        8197; 8198; 8199; 8200; 8201; 8202; 8232; 8233; 8239; 8287; 12288;
        65279].
Proof.
  unfold is_js_whitespace.
  rewrite !orb_true_iff, andb_true_iff, !N.eqb_eq, !N.leb_le.
  intros H; simpl; lia.
Qed.

Lemma parse_leading_ws (ws t : jsstring) :
  Forall (fun c => is_json_ws c = true) ws ->
  JSON_parse (ws ++ t) = JSON_parse t.
Proof.
  unfold JSON_parse; induction 1 as [|c ws Hc _ IH]; [reflexivity|].
  simpl; rewrite Hc; exact IH.
Qed.

Lemma finish_step_ws (p : pstate) (v : JSON) (c : code_unit) :
  finish p = Some v -> is_json_ws c = true ->
  exists p', step p c = Some p' /\ finish p' = Some v.
Proof.
  intros Hf Hc; destruct p as [[|f st] m]; [|destruct m; discriminate].
  destruct m; try discriminate; simpl in Hf.
  - injection Hf as ->; simpl; rewrite Hc; eauto.
  - destruct (num_accepting ns) eqn:Ea; [|discriminate].
    injection Hf as <-.
    apply json_ws_cases in Hc.
    destruct ns; try discriminate;
      destruct Hc as [-> | [-> | [-> | ->]]]; simpl; eauto.
Qed.

Lemma parse_trailing_ws (t ws : jsstring) (v : JSON) :
  JSON_parse t = Some v -> Forall (fun c => is_json_ws c = true) ws ->
  JSON_parse (t ++ ws) = Some v.
Proof.
  unfold JSON_parse; rewrite run_app.
  destruct (run ([], MValue) t) as [p|]; [|discriminate].
  intros Hf Hws; revert p Hf.
  induction Hws as [|c ws Hc _ IH]; intros p Hf; simpl; [exact Hf|].
  destruct (finish_step_ws p v c Hf Hc) as [p' [E1 E2]].
  rewrite E1; exact (IH p' E2).
Qed.

Ltac crunch :=
  repeat match goal with
    | H : Some _ = Some _ |- _ => injection H as <-
    | H : None = Some _ |- _ => discriminate H
    | H : context [if ?b then _ else _] |- _ => destruct b eqn:?
    | H : context [match ?x with _ => _ end] |- _ => destruct x eqn:?
    end.

Lemma step_literal_rest_ok (p p' : pstate) (c : code_unit) :
  literal_rest_ok p -> step p c = Some p' -> literal_rest_ok p'.
Proof.
  destruct p as [st m]; unfold literal_rest_ok; simpl snd; intros Hok H.
  destruct m; simpl in H;
    unfold step_completed, start_value, step_after, complete_string,
      complete_value in H;
    crunch; simpl; auto; try (repeat constructor; fail).
  inversion Hok; subst; assumption.
Qed.

Lemma run_literal_rest_ok (s : jsstring) (p p' : pstate) :
  literal_rest_ok p -> run p s = Some p' -> literal_rest_ok p'.
Proof.
  revert p; induction s as [|c s IH]; intros p Hok H; simpl in H.
  - injection H as <-; exact Hok.
  - destruct (step p c) as [q|] eqn:E; [|discriminate].
    exact (IH q (step_literal_rest_ok p q c Hok E) H).
Qed.

(** A whitespace code unit that ends a text which parses is JSON
    whitespace, and the text parses without it. *)
Lemma step_ws_finish (p p' : pstate) (c : code_unit) (v : JSON) :
  literal_rest_ok p -> is_js_whitespace c = true ->
  step p c = Some p' -> finish p' = Some v ->
  finish p = Some v /\ is_json_ws c = true.
Proof.
  intros Hok Hc Hstep Hfin.
  destruct p as [st m]; unfold literal_rest_ok in Hok; simpl snd in Hok.
  destruct m as [| | | | | |w|acc|acc|acc k n|acc ns|rest w].
  12: { (* inside a literal: the next code unit is not whitespace *)
    destruct rest as [|x rest]; [discriminate|].
    inversion Hok as [|? ? Hx _]; subst.
    simpl in Hstep; destruct (N.eqb_spec c x) as [->|_]; [congruence|].
    discriminate. }
  all: apply js_ws_cases in Hc; simpl in Hc.
  all: repeat (destruct Hc as [<-|Hc]); try contradiction.
  all: try destruct ns.
  all: simpl in Hstep;
    unfold step_completed, start_value, step_after, complete_string,
      complete_value in Hstep;
    simpl in Hstep; try discriminate.
  all: crunch; simpl in Hfin; crunch; try discriminate.
  all: split; [assumption || (simpl; congruence) | reflexivity].
Qed.

Lemma parse_trimStart (t : jsstring) (v : JSON) :
  JSON_parse t = Some v -> JSON_parse (trimStart t) = Some v.
Proof.
  induction t as [|c t IH]; intros H; [exact H|].
  simpl; destruct (is_js_whitespace c) eqn:Ec; [|exact H].
  apply IH; unfold JSON_parse in *; simpl in H.
  destruct (is_json_ws c) eqn:Ej; [exact H|].
  apply js_ws_cases in Ec; simpl in Ec.
  repeat (destruct Ec as [<-|Ec]); try contradiction; discriminate.
Qed.

Lemma parse_trimEnd (t : jsstring) (v : JSON) :
  JSON_parse t = Some v -> JSON_parse (trimEnd t) = Some v.
Proof.
  unfold trimEnd.
  induction t as [|c t IH] using rev_ind; intros H; [exact H|].
  rewrite rev_unit; simpl.
  destruct (is_js_whitespace c) eqn:Ec.
  - apply IH; unfold JSON_parse in *; rewrite run_app in H.
    destruct (run ([], MValue) t) as [p|] eqn:Er; [|discriminate].
    simpl in H; destruct (step p c) as [p'|] eqn:Es; [|discriminate].
    assert (Hok : literal_rest_ok p)
      by (apply (run_literal_rest_ok t ([], MValue)); [exact I | exact Er]).
    exact (proj1 (step_ws_finish p p' c v Hok Ec Es H)).
  - simpl; rewrite rev_involutive; exact H.
Qed.

Lemma parse_trim (t : jsstring) (v : JSON) :
  JSON_parse t = Some v -> JSON_parse (trim t) = Some v.
Proof. intros H; apply parse_trimEnd, parse_trimStart, H. Qed.

(** ** Fence removal *)

Lemma replace_fences_from_0 (c : code_unit) (s : jsstring) :
  replace_fences_from 0 (c :: s)
  = if startsWith fence_json (c :: s) then replace_fences_from 6 s
    else if startsWith fence (c :: s) then replace_fences_from 2 s
    else c :: replace_fences_from 0 s.
Proof. reflexivity. Qed.

Lemma startsWith_fence_json_fence (s : jsstring) :
  startsWith fence_json s = true -> startsWith fence s = true.
Proof.
  change fence_json with [96; 96; 96; 106; 115; 111; 110].
  change fence with [96; 96; 96].
  destruct s as [|a [|b [|c r]]]; simpl; intros H;
    repeat (apply andb_true_iff in H; destruct H as [? H]);
    try discriminate.
  repeat (apply andb_true_iff; split; try assumption); reflexivity.
Qed.

Lemma startsWith_fence_before_newline (s x : jsstring) :
  startsWith fence (s ++ 10 :: x) = startsWith fence s.
Proof.
  change fence with [96; 96; 96].
  destruct s as [|a [|b [|c r]]]; simpl; try reflexivity;
    rewrite ?andb_false_r; reflexivity.
Qed.

Lemma replace_fences_no_fence (s x : jsstring) :
  has_fence s = false ->
  replace_fences_from 0 (s ++ 10 :: x) = s ++ replace_fences_from 0 (10 :: x).
Proof.
  induction s as [|c s IH]; intros H; [reflexivity|].
  change (has_fence (c :: s))
    with (startsWith fence (c :: s) || has_fence s) in H.
  apply orb_false_iff in H; destruct H as [Hc Hs].
  change ((c :: s) ++ 10 :: x) with (c :: (s ++ 10 :: x)).
  rewrite replace_fences_from_0.
  change (c :: (s ++ 10 :: x)) with ((c :: s) ++ 10 :: x).
  rewrite startsWith_fence_before_newline, Hc.
  destruct (startsWith fence_json ((c :: s) ++ 10 :: x)) eqn:Ej.
  - apply startsWith_fence_json_fence in Ej.
    rewrite startsWith_fence_before_newline in Ej; congruence.
  - simpl; f_equal; exact (IH Hs).
Qed.

(** A fenced text whose content holds no fence marker is reduced to the
    content between two newlines. *)
Lemma jsonStr_fenced (t : jsstring) :
  has_fence t = false -> jsonStr (fenced t) = 10 :: t ++ [10].
Proof.
  intros H; unfold jsonStr.
  assert (Etrim : trim (fenced t) = fenced t).
  { unfold trim, trimEnd, fenced.
    change (str "```json" ++ [10] ++ t ++ [10] ++ str "```")
      with (96 :: (96 :: 96 :: 106 :: 115 :: 111 :: 110 :: 10 :: t)
                  ++ [10; 96; 96; 96]).
    change (trimStart (96 :: ?l)) with (96 :: l).
    replace (96 :: (96 :: 96 :: 106 :: 115 :: 111 :: 110 :: 10 :: t)
                   ++ [10; 96; 96; 96])
      with ((96 :: 96 :: 96 :: 106 :: 115 :: 111 :: 110 :: 10 :: t
                ++ [10; 96; 96]) ++ [96])
      by (simpl; rewrite <- app_assoc; reflexivity).
    rewrite rev_unit.
    change (trimStart (96 :: ?l)) with (96 :: l).
    change (rev (96 :: ?l)) with (rev l ++ [96]).
    rewrite rev_involutive; reflexivity. }
  rewrite Etrim; unfold fenced.
  change (str "```json" ++ [10] ++ t ++ [10] ++ str "```")
    with (96 :: 96 :: 96 :: 106 :: 115 :: 111 :: 110 :: 10
             :: (t ++ 10 :: [96; 96; 96])).
  change (startsWith fence_json
            (96 :: 96 :: 96 :: 106 :: 115 :: 111 :: 110 :: 10
                :: (t ++ 10 :: [96; 96; 96])))
    with true.
  cbv iota; unfold replace_fences.
  change (replace_fences_from 0
            (96 :: 96 :: 96 :: 106 :: 115 :: 111 :: 110 :: 10
                :: (t ++ 10 :: [96; 96; 96])))
    with (10 :: replace_fences_from 0 (t ++ 10 :: [96; 96; 96])).
  rewrite (replace_fences_no_fence t [96; 96; 96] H); reflexivity.
Qed.

Lemma jsonStr_bare (t : jsstring) (v : JSON) :
  JSON_parse t = Some v -> jsonStr t = trim t.
Proof.
  intros H; apply parse_trim in H; unfold jsonStr.
  destruct (startsWith fence_json (trim t)) eqn:E; [|reflexivity].
  apply startsWith_fence_json_fence in E.
  change fence with [96; 96; 96] in E.
  destruct (trim t) as [|c r]; [discriminate|].
  change (startsWith [96; 96; 96] (c :: r))
    with ((96 =? c) && startsWith [96; 96] r) in E.
  apply andb_true_iff in E; destruct E as [E _].
  apply N.eqb_eq in E; subst c; discriminate.
Qed.

(** Where the client does what is asked of it: when the text is valid JSON
    and holds no three backquotes in a row, the fenced text and the bare
    text give the same record. *)
Theorem fenced_lookup_agrees (w : jsstring) (mode : Mode) (t : jsstring)
    (v : JSON) :
  JSON_parse t = Some v -> has_fence t = false ->
  fst (lookupWord w mode (Return (Some (fenced t)))) = Return v
  /\ fst (lookupWord w mode (Return (Some t))) = Return v.
Proof.
  intros Hv Hf; split; unfold lookupWord.
  - rewrite (jsonStr_fenced t Hf).
    change (10 :: t ++ [10]) with ([10] ++ (t ++ [10])).
    rewrite parse_leading_ws by (repeat constructor).
    rewrite (parse_trailing_ws t [10] v Hv) by (repeat constructor).
    reflexivity.
  - rewrite (jsonStr_bare t v Hv), (parse_trim t v Hv); reflexivity.
Qed.

Lemma fenced_lookup_agrees_example :
  fst (lookupWord (str "run") EN (Return (Some (fenced (str "{ }")))))
  = Return (JObject []).
Proof.
  apply (proj1 (fenced_lookup_agrees (str "run") EN (str "{ }") (JObject [])
                  eq_refl eq_refl)).
Qed.

(** ** C1, C2: the lookup client *)

Lemma lookupWord_unparsable (w : jsstring) (mode : Mode) (t : jsstring) :
  JSON_parse (jsonStr t) = None ->
  lookupWord w mode (Return (Some t))
  = (Throw InvalidResponse, [ELookupRequest mode w; EConsoleError]).
Proof. intros H; unfold lookupWord; rewrite H; reflexivity. Qed.

Lemma lookupWord_parsed (w : jsstring) (mode : Mode) (t : jsstring)
    (v : JSON) :
  JSON_parse (jsonStr t) = Some v ->
  lookupWord w mode (Return (Some t)) = (Return v, [ELookupRequest mode w]).
Proof. intros H; unfold lookupWord; rewrite H; reflexivity. Qed.

(** A failed lookup, whatever the failure, leaves result, history and
    stored history alone and writes nothing. *)
Lemma performSearch_failed {P : Platform} (s : AppState) (q : jsstring)
    (mode : Mode) (response : outcome (option jsstring)) (now : Z) (e : exn) :
  fst (lookupWord (trim q) mode response) = Throw e ->
  let r := performSearch s q mode response now in
  result (fst r) = result s /\ history (fst r) = history s
  /\ storage (fst r) = storage s
  /\ (forall v, ~ In (ESetItem v) (snd r)).
Proof.
  intros H; unfold performSearch.
  destruct (trim q) as [|c q'] eqn:Eq.
  - simpl; repeat split; auto.
  - destruct (lookupWord (c :: q') mode response) as [[d|e'] tr] eqn:El;
      simpl in H; [discriminate|].
    simpl; repeat split.
    intros v Hin; apply in_app_iff in Hin; destruct Hin as [Hin|Hin].
    + unfold lookupWord in El.
      destruct response as [[t|]|e0];
        [destruct (JSON_parse (jsonStr t))| |];
        inversion El; subst; simpl in Hin;
        repeat (destruct Hin as [Hin|Hin]; [discriminate|]); exact Hin.
    + simpl in Hin; repeat (destruct Hin as [Hin|Hin]; [discriminate|]);
        exact Hin.
Qed.

(** C1 (amended). The payload is parsed all or nothing, but only as JSON:
    when the text, trimmed and with its fence markers removed, is not valid
    JSON, the lookup throws InvalidResponse and the search leaves result,
    history and stored history unchanged; when it is valid JSON, the value is
    returned as parsed, whatever properties it has. *)
Theorem lookup_all_or_nothing {P : Platform} (s : AppState)
    (q : jsstring) (mode : Mode) (t : jsstring) (now : Z) :
  match JSON_parse (jsonStr t) with
  | None =>
      fst (lookupWord (trim q) mode (Return (Some t))) = Throw InvalidResponse
      /\ (let r := performSearch s q mode (Return (Some t)) now in
          result (fst r) = result s /\ history (fst r) = history s
          /\ storage (fst r) = storage s
          /\ (forall v, ~ In (ESetItem v) (snd r)))
  | Some v => fst (lookupWord (trim q) mode (Return (Some t))) = Return v
  end.
Proof.
  destruct (JSON_parse (jsonStr t)) as [v|] eqn:E.
  - rewrite (lookupWord_parsed _ _ _ _ E); reflexivity.
  - assert (H : fst (lookupWord (trim q) mode (Return (Some t)))
                = Throw InvalidResponse)
      by (rewrite (lookupWord_unparsable _ _ _ E); reflexivity).
    split; [exact H | exact (performSearch_failed s q mode _ now _ H)].
Qed.

(** C1 as stated fails on the payload [{}]: it is valid JSON without any of
    the required properties, the lookup returns it, and the search records
    an entry whose word is undefined and stores it. *)
Lemma lookup_accepts_incomplete_payload :
  has_required (JObject []) = false
  /\ fst (lookupWord (str "run") EN (Return (Some (str "{}"))))
     = Return (JObject [])
  /\ get_property (JObject []) (str "word") = Some undefined
  /\ (let r := performSearch (P := example_platform) empty_app (str "run") EN
                 (Return (Some (str "{}"))) 1000%Z in
      result (fst r) = JObject []
      /\ history (fst r) = [{| word := undefined; timestamp := 1000 |}]
      /\ storage (fst r)
         = Some (str "[{" ++ quote (str "timestamp") ++ str ":1000}]")
      /\ storage (fst r) <> storage empty_app).
Proof.
  repeat split; try (vm_compute; reflexivity).
  vm_compute; discriminate.
Qed.

(** C2: on a complete record whose notes contain three backquotes the
    client returns another record for the fenced text than for the bare
    text: the replacement removed the backquotes inside the notes too. *)
Theorem fence_removal_alters_content :
  has_required fence_note = true
  /\ fst (lookupWord (str "fence") EN (Return (Some fence_note_text)))
     = Return fence_note
  /\ fst (lookupWord (str "fence") EN (Return (Some (fenced fence_note_text))))
     = Return fence_note_stripped
  /\ fence_note_stripped <> fence_note.
Proof.
  repeat split; try (vm_compute; reflexivity).
  vm_compute; discriminate.
Qed.

(** ** C10: the audio request *)

(** C10. [generateAudio] never throws: whatever the service call does, it
    returns, and when the call throws it returns [undefined], the result it
    also gives for a response without payload; [handleReadAloud] ends in the
    same state with the same outcome in both cases. *)
Theorem generateAudio_total {P : Platform} (text : jsstring)
    (response : outcome AudioResponse) :
  (exists payload tr, generateAudio text response = (Return payload, tr))
  /\ (forall e, fst (generateAudio text (Throw e)) = Return None)
  /\ (forall e r, inline_data_of r = None ->
        fst (generateAudio text (Throw e)) = fst (generateAudio text (Return r))
        /\ forall s d env,
             fst (fst (handleReadAloud s d (with_tts (Throw e) env)))
             = fst (fst (handleReadAloud s d (with_tts (Return r) env)))
             /\ snd (handleReadAloud s d (with_tts (Throw e) env))
                = snd (handleReadAloud s d (with_tts (Return r) env))).
Proof.
  split; [|split].
  - destruct response as [r|e]; simpl; eauto.
  - reflexivity.
  - intros e r Hr; split; [simpl; rewrite Hr; reflexivity|].
    intros s d env; unfold handleReadAloud.
    destruct (isPlaying s); [destruct (sourceNodeRef s); split; reflexivity|].
    destruct (fullText d); [|split; reflexivity].
    simpl; rewrite Hr; split; reflexivity.
Qed.

Lemma generateAudio_total_witness :
  fst (generateAudio (str "Word: run") (Throw (ServiceError 503)))
  = fst (generateAudio (str "Word: run") (Return no_candidates)).
Proof.
  apply (proj2 (proj2 (generateAudio_total (P := example_platform)
                         (str "Word: run") (Return no_candidates)))
           (ServiceError 503) no_candidates).
  reflexivity.
Defined.

(** ** C9: one recognizer at a time *)



Lemma set_status_length (k : nat) (x : recognizer_status)
    (l : list recognizer) :
  List.length (set_status k x l) = List.length l.
Proof. revert k; induction l as [|r l IH]; intros [|k]; simpl; auto. Qed.

Lemma stop_recognizer_length (i : nat) (rs : list recognizer) :
  List.length (stop_recognizer i rs) = List.length rs.
Proof.
  unfold stop_recognizer.
  destruct (status_at rs i) as [[]|]; try reflexivity.
  apply set_status_length.
Qed.







Lemma performSearch_voice {P : Platform} (s : AppState) (q : jsstring)
    (mode : Mode) (response : outcome (option jsstring)) (now : Z) :
  recognitionRef (fst (performSearch s q mode response now)) = recognitionRef s
  /\ recognizers (fst (performSearch s q mode response now)) = recognizers s.
Proof.
  unfold performSearch.
  destruct (trim q); [split; reflexivity|].
  destruct (lookupWord _ mode response) as [[d|e] tr]; [|split; reflexivity].
  destruct (get_property d (str "word")); split; reflexivity.
Qed.






(** ** C6, C7: the playback state machine *)

Section Playback.
Context {P : Platform}.

Lemma play_has_source (s : PlayerState) (b : jsstring) (env : Narration)
    (tr : list event) :
  playing_has_source (fst (fst (play s b env tr))).
Proof.
  unfold play, playback_failed, playing_has_source.
  destruct (decodeBase64 b); [|simpl; discriminate].
  destruct (decodeAudioData a); [|simpl; discriminate].
  destruct (createBufferSource env); [|simpl; discriminate].
  destruct (connect env); [|simpl; discriminate].
  destruct (start env); simpl; [eauto | discriminate].
Qed.

Lemma handleReadAloud_has_source (s : PlayerState) (d : JSON)
    (env : Narration) :
  playing_has_source s ->
  playing_has_source (fst (fst (handleReadAloud s d env))).
Proof.
  intros Inv; unfold handleReadAloud.
  destruct (isPlaying s) eqn:Ep.
  - destruct (sourceNodeRef s); simpl; intros H; discriminate.
  - destruct (fullText d) as [text|]; [|simpl; intros H; simpl in H; congruence].
    destruct (generateAudio text (tts env)) as [[payload|e] tr];
      [|simpl; intros H; simpl in H; congruence].
    destruct payload as [[|c b]|];
      try (simpl; intros H; simpl in H; congruence).
    destruct (audioContextRef (set_isTtsLoading false (set_isTtsLoading true s)));
      [|destruct (newAudioContext env);
        [|simpl; intros H; simpl in H; congruence]];
      (destruct (suspended env);
       [destruct (resume env);
        [apply play_has_source | simpl; intros H; simpl in H; congruence]
       | apply play_has_source]).
Qed.

Lemma reachable_has_source (s : PlayerState) :
  player_reachable s -> playing_has_source s.
Proof.
  induction 1 as [|s i _ IH].
  - intros H; discriminate.
  - destruct i as [d env| |]; simpl.
    + exact (handleReadAloud_has_source s d env IH).
    + intros H; discriminate.
    + unfold cleanup; destruct (sourceNodeRef s); exact IH.
Qed.

End Playback.

(** C6. When the button is pressed while the player is in the Playing
    phase, the source held by [sourceNodeRef] is stopped, nothing else
    happens (in particular no audio is requested), and the player is Idle
    with no current source. *)
Theorem toggle_stops_playback {P : Platform} (s : PlayerState) (d : JSON)
    (env : Narration) :
  player_reachable s -> phase_of s = Playing ->
  exists i s',
    sourceNodeRef s = Some i
    /\ handleReadAloud s d env = (s', [ESourceStop i], Return tt)
    /\ phase_of s' = Idle /\ isPlaying s' = false
    /\ sourceNodeRef s' = None.
Proof.
  intros Hr Hp; unfold phase_of in Hp.
  destruct (isTtsLoading s) eqn:El; [discriminate|].
  destruct (isPlaying s) eqn:Ep; [|discriminate].
  destruct (reachable_has_source s Hr Ep) as [i Hi].
  exists i; eexists; split; [exact Hi|].
  unfold handleReadAloud; rewrite Ep, Hi.
  split; [reflexivity|].
  unfold phase_of; simpl; rewrite El; auto.
Qed.

Lemma toggle_stops_playback_witness :
  exists s',
    handleReadAloud (P := example_platform)
      (fst (fst (handleReadAloud (P := example_platform) initial_player
                   fence_note all_fine)))
      fence_note all_fine
    = (s', [ESourceStop 0], Return tt)
    /\ phase_of s' = Idle.
Proof.
  destruct (toggle_stops_playback (P := example_platform)
              (fst (fst (handleReadAloud (P := example_platform) initial_player
                   fence_note all_fine)))
              fence_note all_fine)
    as (i & s' & Hi & Hrun & Hidle & _).
  - exact (player_next (P := example_platform) initial_player
             (Press fence_note all_fine) player_initial).
  - vm_compute; reflexivity.
  - exists s'; split; [|exact Hidle].
    vm_compute in Hi; injection Hi as <-; exact Hrun.
Defined.


Section Failures.
Context {P : Platform}.


End Failures.



(** ** C5: the decode path *)

Ltac divmod := zify; Z.to_euclidean_division_equations; lia.

Lemma below_64 (p : N -> bool) :
  forallb p (map N.of_nat (seq 0 64)) = true ->
  forall n, n < 64 -> p n = true.
Proof.
  intros H n Hn; rewrite forallb_forall in H; apply H.
  apply in_map_iff; exists (N.to_nat n); split; [apply N2Nat.id|].
  apply in_seq; lia.
Qed.

Lemma sextet_of_char (n : N) :
  n < 64 -> sextet_of (char_of_sextet n) = Some n.
Proof.
  intros Hn.
  pose proof (below_64
    (fun n => match sextet_of (char_of_sextet n) with
              | Some m => m =? n
              | None => false
              end) eq_refl n Hn) as H; simpl in H.
  destruct (sextet_of (char_of_sextet n)); [|discriminate].
  apply N.eqb_eq in H; congruence.
Qed.

Lemma char_of_sextet_not_ws (n : N) :
  n < 64 -> is_ascii_ws (char_of_sextet n) = false.
Proof.
  intros Hn.
  pose proof (below_64 (fun n => negb (is_ascii_ws (char_of_sextet n)))
                eq_refl n Hn) as H; simpl in H.
  apply negb_true_iff in H; exact H.
Qed.

Lemma char_of_sextet_not_pad (n : N) :
  n < 64 -> (char_of_sextet n =? 61) = false.
Proof.
  intros Hn.
  pose proof (below_64 (fun n => negb (char_of_sextet n =? 61))
                eq_refl n Hn) as H; simpl in H.
  apply negb_true_iff in H; exact H.
Qed.

(** Induction over a byte list three bytes at a time. *)
Lemma list_ind3 {A : Type} (Q : list A -> Prop) :
  Q [] -> (forall a, Q [a]) -> (forall a b, Q [a; b]) ->
  (forall a b c r, Q r -> Q (a :: b :: c :: r)) ->
  forall l, Q l.
Proof.
  intros H0 H1 H2 H3.
  assert (H : forall l, Q l /\ (forall a, Q (a :: l))
                        /\ (forall a b, Q (a :: b :: l))).
  { induction l as [|x l (Ha & Hb & Hc)]; [auto|].
    split; [exact (Hb x)|]; split; [intros a; exact (Hc a x)|].
    intros a b; apply H3; exact Ha. }
  intros l; apply H.
Qed.

Lemma base64_encode_split (bs : list byte) :
  base64_encode bs = map char_of_sextet (sextets bs) ++ padding bs.
Proof.
  induction bs as [|a|a b|a b c r IH] using list_ind3; try reflexivity.
  simpl; rewrite IH; reflexivity.
Qed.

Lemma sextets_below_64 (bs : list byte) :
  Forall is_byte bs -> Forall (fun n => n < 64) (sextets bs).
Proof.
  unfold is_byte.
  induction bs as [|a|a b|a b c r IH] using list_ind3; intros H; simpl.
  - constructor.
  - inversion H; subst; repeat constructor; divmod.
  - inversion H as [|? ? Ha H']; inversion H'; subst;
      repeat constructor; divmod.
  - inversion H as [|? ? Ha H']; inversion H' as [|? ? Hb H''];
      inversion H'' as [|? ? Hc Hr]; subst.
    repeat (constructor; [divmod|]); exact (IH Hr).
Qed.

Lemma bytes_of_sextets_sextets (bs : list byte) :
  Forall is_byte bs -> bytes_of_sextets (sextets bs) = bs.
Proof.
  unfold is_byte.
  induction bs as [|a|a b|a b c r IH] using list_ind3; intros H.
  - reflexivity.
  - inversion H; subst; simpl; f_equal; divmod.
  - inversion H as [|? ? Ha H']; inversion H'; subst; simpl.
    f_equal; [divmod|f_equal; divmod].
  - inversion H as [|? ? Ha H']; inversion H' as [|? ? Hb H''];
      inversion H'' as [|? ? Hc Hr]; subst.
    cbn [sextets bytes_of_sextets]; rewrite (IH Hr).
    f_equal; [divmod|]; f_equal; [divmod|]; f_equal; divmod.
Qed.

Lemma sextets_of_chars (l : list N) :
  Forall (fun n => n < 64) l -> sextets_of (map char_of_sextet l) = Some l.
Proof.
  induction 1 as [|n l Hn _ IH]; simpl; [reflexivity|].
  rewrite (sextet_of_char n Hn), IH; reflexivity.
Qed.

Lemma filter_ws_chars (l : list N) (pad : jsstring) :
  Forall (fun n => n < 64) l -> Forall (fun c => c = 61) pad ->
  filter (fun c => negb (is_ascii_ws c)) (map char_of_sextet l ++ pad)
  = map char_of_sextet l ++ pad.
Proof.
  intros Hl Hp; apply forallb_filter_id, forallb_forall.
  intros c Hc; apply in_app_iff in Hc; destruct Hc as [Hc|Hc].
  - apply in_map_iff in Hc; destruct Hc as [n [<- Hn]].
    rewrite Forall_forall in Hl.
    rewrite (char_of_sextet_not_ws n (Hl n Hn)); reflexivity.
  - rewrite Forall_forall in Hp; rewrite (Hp c Hc); reflexivity.
Qed.

(** How many groups and padding characters the encoder writes. *)
Lemma encoding_shape (bs : list byte) :
  (padding bs = [] /\ (List.length (sextets bs) mod 4 = 0)%nat)
  \/ (padding bs = [61] /\ (List.length (sextets bs) mod 4 = 3)%nat)
  \/ (padding bs = [61; 61] /\ (List.length (sextets bs) mod 4 = 2)%nat).
Proof.
  induction bs as [|a|a b|a b c r IH] using list_ind3.
  - left; split; reflexivity.
  - right; right; split; reflexivity.
  - right; left; split; reflexivity.
  - cbn [padding sextets List.length].
    replace (S (S (S (S (List.length (sextets r))))))
      with (List.length (sextets r) + 1 * 4)%nat by lia.
    rewrite Nat.Div0.mod_add; exact IH.
Qed.

Lemma rev_head_in {A : Type} (l : list A) (a : A) (r : list A) :
  rev l = a :: r -> In a l.
Proof.
  intros H; apply in_rev; rewrite H; left; reflexivity.
Qed.

Lemma strip_padding_encoding (l : list N) (pad : jsstring) :
  Forall (fun n => n < 64) l ->
  (pad = [] /\ (List.length l mod 4 = 0)%nat)
  \/ (pad = [61] /\ (List.length l mod 4 = 3)%nat)
  \/ (pad = [61; 61] /\ (List.length l mod 4 = 2)%nat) ->
  strip_padding (map char_of_sextet l ++ pad) = map char_of_sextet l.
Proof.
  intros Hl Hshape; unfold strip_padding.
  assert (Hnot : forall a r, rev (map char_of_sextet l) = a :: r ->
                             (a =? 61) = false).
  { intros a r Hr; apply rev_head_in, in_map_iff in Hr.
    destruct Hr as [n [<- Hn]]; rewrite Forall_forall in Hl.
    apply char_of_sextet_not_pad; auto. }
  destruct Hshape as [[-> Hm]|[[-> Hm]|[-> Hm]]].
  - rewrite app_nil_r, length_map, Hm; simpl.
    destruct (rev (map char_of_sextet l)) as [|a [|b r]];
      try reflexivity; rewrite (Hnot _ _ eq_refl); reflexivity.
  - rewrite length_app, length_map; simpl List.length.
    rewrite Nat.Div0.add_mod, Hm; simpl.
    rewrite rev_app_distr; simpl.
    pose proof (rev_involutive (map char_of_sextet l)) as Hinv.
    destruct (rev (map char_of_sextet l)) as [|b r].
    + simpl in Hinv; apply (f_equal (@List.length _)) in Hinv.
      rewrite length_map in Hinv; simpl in Hinv.
      rewrite <- Hinv in Hm; discriminate.
    + rewrite (Hnot _ _ eq_refl); simpl; exact Hinv.
  - rewrite length_app, length_map; simpl List.length.
    rewrite Nat.Div0.add_mod, Hm; simpl.
    rewrite rev_app_distr; simpl.
    apply rev_involutive.
Qed.

(** [atob] undoes the base64 encoding of any byte sequence. *)
Lemma atob_base64_encode (bs : list byte) :
  Forall is_byte bs -> atob (base64_encode bs) = Some bs.
Proof.
  intros Hb; unfold atob.
  pose proof (sextets_below_64 bs Hb) as H64.
  pose proof (encoding_shape bs) as Hshape.
  rewrite base64_encode_split, filter_ws_chars; [|exact H64|].
  - rewrite (strip_padding_encoding _ _ H64 Hshape), length_map.
    replace (List.length (sextets bs) mod 4 =? 1)%nat with false.
    + rewrite (sextets_of_chars _ H64), (bytes_of_sextets_sextets bs Hb).
      reflexivity.
    + symmetry; apply Nat.eqb_neq.
      destruct Hshape as [[_ H]|[[_ H]|[_ H]]]; rewrite H; discriminate.
  - destruct Hshape as [[-> _]|[[-> _]|[-> _]]]; repeat constructor.
Qed.

Lemma int16_bytes_are_bytes (x : Z) : Forall is_byte (int16_bytes x).
Proof.
  unfold int16_bytes, is_byte; repeat constructor; divmod.
Qed.

Lemma pcm_bytes_are_bytes (samples : list Z) :
  Forall is_byte (pcm_bytes samples).
Proof.
  induction samples as [|x l IH]; [constructor|].
  change (pcm_bytes (x :: l)) with (int16_bytes x ++ pcm_bytes l).
  apply Forall_app; split; [apply int16_bytes_are_bytes | exact IH].
Qed.

Lemma decodeBase64_encode (bs : list byte) :
  Forall is_byte bs -> decodeBase64 (base64_encode bs) = Return bs.
Proof.
  intros H; unfold decodeBase64; rewrite (atob_base64_encode bs H).
  f_equal; induction H as [|b l Hb _ IH]; [reflexivity|].
  simpl; rewrite IH, (N.mod_small b 256 Hb); reflexivity.
Qed.

Lemma int16_of_int16_bytes (x : Z) :
  is_int16 x ->
  int16_of_bytes (Z.to_N ((x mod 65536) mod 256)) (Z.to_N ((x mod 65536) / 256))
  = x.
Proof.
  unfold is_int16, int16_of_bytes; intros Hx.
  assert (Hu : Z.of_N (Z.to_N ((x mod 65536) mod 256)
                       + 256 * Z.to_N ((x mod 65536) / 256))
               = (x mod 65536)%Z) by divmod.
  rewrite Hu.
  destruct (Z.ltb_spec (x mod 65536) 32768); divmod.
Qed.

Lemma pcm_length (samples : list Z) :
  List.length (pcm_bytes samples) = (2 * List.length samples)%nat.
Proof.
  induction samples as [|x l IH]; [reflexivity|].
  unfold pcm_bytes in *; simpl; rewrite IH; lia.
Qed.

(** An Int16Array over the PCM bytes holds the samples again. *)
Lemma Int16Array_pcm (samples : list Z) :
  Forall is_int16 samples -> Int16Array (pcm_bytes samples) = Return samples.
Proof.
  intros H; unfold Int16Array.
  rewrite pcm_length, Nat.even_mul; simpl; f_equal.
  induction H as [|x l Hx _ IH]; [reflexivity|].
  unfold pcm_bytes in *; simpl.
  rewrite IH, (int16_of_int16_bytes x Hx); reflexivity.
Qed.

Lemma map_nth_seq {A B : Type} (f : A -> B) (d : A) (l : list A) (k : nat) :
  map (fun i => f (nth (i - k) l d)) (seq k (List.length l)) = map f l.
Proof.
  revert k; induction l as [|x l IH]; intros k; [reflexivity|].
  simpl; rewrite Nat.sub_diag; f_equal.
  rewrite <- (IH (S k)); apply map_ext_in.
  intros i Hi; apply in_seq in Hi.
  replace (i - k)%nat with (S (i - S k)) by lia; reflexivity.
Qed.

Lemma fill_channel_all (l : list Z) :
  fill_channel l (List.length l) 0 = map normalize l.
Proof.
  unfold fill_channel, numChannels.
  rewrite <- (map_nth_seq normalize 0%Z l 0); apply map_ext.
  intros i; rewrite Nat.mul_1_r, Nat.add_0_r, Nat.sub_0_r; reflexivity.
Qed.

Lemma decodeAudioData_pcm (samples : list Z) :
  samples <> [] -> Forall is_int16 samples ->
  decodeAudioData (pcm_bytes samples) = Return (mono_buffer samples).
Proof.
  intros Hne H; unfold decodeAudioData.
  rewrite (Int16Array_pcm samples H).
  unfold numChannels; rewrite Nat.div_1_r.
  unfold createBuffer, sampleRate.
  destruct samples as [|x l]; [congruence|].
  cbn [List.length Nat.eqb orb Z.leb Z.compare numberOfChannels frames
       bufferRate seq map].
  unfold mono_buffer; do 3 f_equal.
  exact (fill_channel_all (x :: l)).
Qed.

Lemma normalize_scaled (z : Z) :
  (normalize z == inject_Z z * (1 # 32768))%Q.
Proof. unfold normalize, Qeq; simpl; lia. Qed.

(** Dividing by 32768 turns one step of the int16 grid into 1/32768. *)
Lemma normalize_error (z : Z) (x : Q) :
  (Qabs (inject_Z z - x * 32768) <= 1)%Q ->
  (Qabs (normalize z - x) <= 1 # 32768)%Q.
Proof.
  intros H; apply Qabs_Qle_condition in H; destruct H as [H1 H2].
  apply Qabs_Qle_condition; rewrite normalize_scaled; split; lra.
Qed.

(** Rounding to nearest with saturation is a quantizer. *)
Lemma quantize_quantizer : quantizer quantize.
Proof.
  intros x [Hlo Hhi]; split; [unfold is_int16, quantize; lia|].
  unfold quantize.
  set (f := Qfloor (x * 32768 + (1 # 2))%Q).
  pose proof (Qfloor_le (x * 32768 + (1 # 2))%Q) as Hle.
  pose proof (Qlt_floor (x * 32768 + (1 # 2))%Q) as Hlt.
  fold f in Hle, Hlt; rewrite inject_Z_plus in Hlt.
  change (inject_Z 1) with 1%Q in Hlt.
  assert (Hf1 : (f <= 32768)%Z).
  { assert (H : (f < 32769)%Z); [|lia].
    rewrite Zlt_Qlt; change (inject_Z 32769) with 32769%Q; lra. }
  assert (Hf2 : (-32768 <= f)%Z).
  { assert (H : (-32768 < f + 1)%Z); [|lia].
    rewrite Zlt_Qlt, inject_Z_plus.
    change (inject_Z (-32768)) with (-32768)%Q.
    change (inject_Z 1) with 1%Q; lra. }
  apply Qabs_Qle_condition.
  destruct (Z.eq_dec f 32768) as [E|E].
  - rewrite E in *.
    change (Z.max (-32768) (Z.min 32767 32768)) with 32767%Z.
    change (inject_Z 32767) with 32767%Q.
    change (inject_Z 32768) with 32768%Q in *; lra.
  - replace (Z.max (-32768) (Z.min 32767 f)) with f by lia; lra.
Qed.

(** C5 (amended). For every non-empty sequence of int16 samples, written as
    little-endian bytes and base64-encoded, the decode path returns a mono
    buffer at 24000 Hz with as many frames, whose i-th sample is the i-th
    int16 divided by 32768; hence normalized samples in [-1, 1], quantized to
    int16 and sent through the same path, come back within 1/32768. *)
Theorem decode_path_pcm :
  (forall samples : list Z,
      samples <> [] -> Forall is_int16 samples ->
      decode_path (base64_encode (pcm_bytes samples))
      = Return {| numberOfChannels := 1; frames := List.length samples;
                  bufferRate := 24000;
                  channels := [map normalize samples] |})
  /\ (forall (q : Q -> Z) (xs : list Q),
         quantizer q ->
         xs <> [] -> Forall (fun x => (-1 <= x <= 1)%Q) xs ->
         exists ys,
           decode_path (encode_samples q xs)
           = Return {| numberOfChannels := 1; frames := List.length xs;
                       bufferRate := 24000; channels := [ys] |}
           /\ Forall2 (fun x y => (Qabs (y - x) <= 1 # 32768)%Q) xs ys).
Proof.
  assert (H1 : forall samples : list Z,
             samples <> [] -> Forall is_int16 samples ->
             decode_path (base64_encode (pcm_bytes samples))
             = Return (mono_buffer samples)).
  { intros samples Hne H; unfold decode_path.
    rewrite (decodeBase64_encode _ (pcm_bytes_are_bytes samples)).
    exact (decodeAudioData_pcm samples Hne H). }
  split; [exact H1|].
  intros q xs Hq Hne Hx; exists (map normalize (map q xs)); split.
  - unfold encode_samples; rewrite H1.
    + unfold mono_buffer; rewrite length_map; reflexivity.
    + destruct xs; [congruence | discriminate].
    + apply Forall_map; revert Hx; apply Forall_impl.
      intros x Hx; exact (proj1 (Hq x Hx)).
  - clear Hne; induction Hx as [|x l Hx _ IH]; simpl; constructor;
      [exact (normalize_error _ _ (proj2 (Hq x Hx))) | exact IH].
Qed.

Lemma decode_path_pcm_witness :
  decode_path (base64_encode (pcm_bytes [32767; -32768; -1]%Z))
  = Return {| numberOfChannels := 1; frames := 3; bufferRate := 24000;
              channels := [[normalize 32767; normalize (-32768);
                            normalize (-1)]] |}
  /\ exists ys,
       decode_path (encode_samples quantize [1; -1; 1 # 3]%Q)
       = Return {| numberOfChannels := 1; frames := 3; bufferRate := 24000;
                   channels := [ys] |}
       /\ Forall2 (fun x y => (Qabs (y - x) <= 1 # 32768)%Q)
            [1; -1; 1 # 3]%Q ys.
Proof.
  split.
  - apply (proj1 decode_path_pcm [32767; -32768; -1]%Z).
    + discriminate.
    + repeat constructor; discriminate.
  - apply (proj2 decode_path_pcm quantize [1; -1; 1 # 3]%Q).
    + exact quantize_quantizer.
    + discriminate.
    + repeat constructor; discriminate.
Defined.

(** C5 as stated fails on the empty sequence: its encoding is the empty
    string, which decodes to no byte, and a buffer of zero frames cannot be
    created. *)
Lemma decode_path_empty :
  base64_encode (pcm_bytes []) = []
  /\ decodeBase64 [] = Return []
  /\ decode_path (base64_encode (pcm_bytes [])) = Throw NotSupportedError.
Proof. repeat split. Qed.

(* ================================================================== *)
(** * Further properties of the code *)
(* ================================================================== *)

(** ** Trimming *)

Lemma trimStart_head (s : jsstring) (c : code_unit) (r : jsstring) :
  trimStart s = c :: r -> is_js_whitespace c = false.
Proof.
  induction s as [|x s IH]; simpl; [discriminate|].
  destruct (is_js_whitespace x) eqn:E; [exact IH|].
  intros [= <- _]; exact E.
Qed.

Lemma trimStart_app_blank (a t : jsstring) :
  blank a -> trimStart (a ++ t) = trimStart t.
Proof.
  induction 1 as [|c a Hc _ IH]; simpl; [reflexivity|].
  rewrite Hc; exact IH.
Qed.

Lemma trimStart_app_nonblank (t b : jsstring) :
  trimStart t <> [] -> trimStart (t ++ b) = trimStart t ++ b.
Proof.
  induction t as [|c t IH]; simpl; [congruence|].
  destruct (is_js_whitespace c); [exact IH | reflexivity].
Qed.

Lemma blank_rev (b : jsstring) : blank b -> blank (rev b).
Proof. apply Forall_rev. Qed.

Lemma trimEnd_app_blank (t b : jsstring) :
  blank b -> trimEnd (t ++ b) = trimEnd t.
Proof.
  intros Hb; unfold trimEnd.
  rewrite rev_app_distr, (trimStart_app_blank _ _ (blank_rev b Hb)).
  reflexivity.
Qed.

(** What [trimEnd] removes is whitespace at the end. *)
Lemma trimEnd_prefix (s : jsstring) :
  exists b, blank b /\ s = trimEnd s ++ b.
Proof.
  unfold trimEnd.
  destruct (trimStart_suffix (rev s)) as [p [Hp Hs]].
  exists (rev p); split; [exact (blank_rev p Hp)|].
  rewrite <- rev_app_distr, <- Hs, rev_involutive; reflexivity.
Qed.

(** Whitespace around a text does not change what [trim] returns. *)
Lemma trim_padded (a t b : jsstring) :
  blank a -> blank b -> trim (a ++ t ++ b) = trim t.
Proof.
  intros Ha Hb; unfold trim.
  rewrite (trimStart_app_blank a (t ++ b) Ha).
  destruct (trimStart t) as [|c r] eqn:E.
  - assert (Ht : blank t) by (apply trimStart_nil_blank; exact E).
    rewrite (trimStart_blank (t ++ b)); [reflexivity|].
    unfold blank; apply Forall_app; split; assumption.
  - rewrite trimStart_app_nonblank by congruence.
    rewrite E; exact (trimEnd_app_blank (c :: r) b Hb).
Qed.

(** The result of [trim] neither begins nor ends with whitespace. *)
Lemma trim_no_outer_whitespace (s : jsstring) : no_outer_whitespace (trim s).
Proof.
  unfold trim; split.
  - intros c r H.
    destruct (trimEnd_prefix (trimStart s)) as [b [_ Hb]].
    rewrite H in Hb; simpl in Hb.
    exact (trimStart_head s c _ Hb).
  - intros c r H; unfold trimEnd in H.
    apply (f_equal (@rev _)) in H.
    rewrite rev_involutive, rev_unit in H.
    exact (trimStart_head _ c _ H).
Qed.

Lemma trim_fixed (x : jsstring) : no_outer_whitespace x -> trim x = x.
Proof.
  intros [Hh Hl]; unfold trim.
  assert (E1 : trimStart x = x).
  { destruct x as [|c r]; [reflexivity|].
    simpl; rewrite (Hh c r eq_refl); reflexivity. }
  rewrite E1; unfold trimEnd.
  assert (E2 : trimStart (rev x) = rev x).
  { remember (rev x) as y eqn:Ey; destruct y as [|c r]; [reflexivity|].
    assert (Hc : is_js_whitespace c = false).
    { apply (Hl c (rev r)).
      rewrite <- (rev_involutive x), <- Ey; reflexivity. }
    simpl; rewrite Hc; reflexivity. }
  rewrite E2; apply rev_involutive.
Qed.

Lemma trim_idempotent (s : jsstring) : trim (trim s) = trim s.
Proof. apply trim_fixed, trim_no_outer_whitespace. Qed.

(** ** The searches of App.tsx *)

(** X1. Whatever is typed or said, the service is asked at most once per
    search, in the mode given, and for the trimmed query: a non-empty string
    that neither begins nor ends with whitespace. *)
Theorem performSearch_request_trimmed {P : Platform} (s : AppState)
    (q : jsstring) (mode : Mode) (response : outcome (option jsstring))
    (now : Z) :
  (forall m w, In (ELookupRequest m w) (snd (performSearch s q mode response now)) ->
               m = mode /\ w = trim q /\ w <> [] /\ no_outer_whitespace w)
  /\ (List.length (filter (fun e => match e with
                                    | ELookupRequest _ _ => true
                                    | _ => false
                                    end)
                     (snd (performSearch s q mode response now))) <= 1)%nat.
Proof.
  unfold performSearch, lookupWord.
  destruct (trim q) as [|c r] eqn:E; [split; [intros m w []|simpl; lia]|].
  assert (Hw : c :: r <> [] /\ no_outer_whitespace (c :: r)).
  { split; [discriminate|]; rewrite <- E; apply trim_no_outer_whitespace. }
  destruct response as [[t|]|e];
    [destruct (JSON_parse (jsonStr t)) as [d|];
     [destruct (get_property d (str "word"))|]| |];
    simpl; (split; [|lia]); intros m w H;
    repeat (destruct H as [H|H]; [try discriminate|]); try contradiction;
    injection H as <- <-; tauto.
Qed.
Lemma performSearch_nonblank {P : Platform} (s : AppState) (q : jsstring)
    (mode : Mode) (response : outcome (option jsstring)) (now : Z) :
  ~ blank q ->
  performSearch s q mode response now
  = let s1 := set_transcriptFeedback [] (set_loading true s) in
    match lookupWord (trim q) mode response with
    | (Return d, tr) =>
        let s2 := set_result d s1 in
        match get_property d (str "word") with
        | Some w =>
            let '(s3, tr') := addToHistory s2 w now in
            (set_loading false (set_query w s3), tr ++ tr')
        | None =>
            (set_loading false s2, tr ++ [EConsoleError; EAlert search_failed])
        end
    | (Throw _, tr) =>
        (set_loading false s1, tr ++ [EConsoleError; EAlert search_failed])
    end.
Proof.
  intros H; rewrite <- trim_nil_iff in H; unfold performSearch.
  destruct (trim q); [congruence | reflexivity].
Qed.

Lemma lookupWord_trace (w : jsstring) (mode : Mode)
    (response : outcome (option jsstring)) :
  snd (lookupWord w mode response) = [ELookupRequest mode w]
  \/ snd (lookupWord w mode response) = [ELookupRequest mode w; EConsoleError].
Proof.
  unfold lookupWord; destruct response as [[t|]|e];
    [destruct (JSON_parse (jsonStr t))| |]; simpl; auto.
Qed.



(** X3. When the payload is the JSON value [null], the search is reported
    as failed and records nothing, yet the displayed record has been
    replaced by [null]: the display is cleared.  When the lookup itself
    throws, the displayed record stays. *)
Theorem failed_search_display {P : Platform} (s : AppState) (q : jsstring)
    (mode : Mode) (response : outcome (option jsstring)) (now : Z) :
  ~ blank q ->
  let r := performSearch s q mode response now in
  (fst (lookupWord (trim q) mode response) = Return JNull ->
   result (fst r) = JNull /\ history (fst r) = history s
   /\ storage (fst r) = storage s /\ In (EAlert search_failed) (snd r))
  /\ (forall e, fst (lookupWord (trim q) mode response) = Throw e ->
                result (fst r) = result s /\ In (EAlert search_failed) (snd r)).
Proof.
  intros Hq r; unfold r; rewrite (performSearch_nonblank s q mode response now Hq).
  destruct (lookupWord (trim q) mode response) as [[d|e] tr]; simpl; split.
  - intros [= ->]; simpl; repeat split.
    apply in_app_iff; right; simpl; tauto.
  - intros e H; discriminate.
  - intros H; discriminate.
  - intros e' _; split; [reflexivity|].
    apply in_app_iff; right; simpl; tauto.
Qed.

Lemma failed_search_display_witness :
  let r := performSearch (P := example_platform)
             (set_result fence_note empty_app) (str "run") EN
             (Return (Some (str " null "))) 5%Z in
  result (fst r) = JNull /\ history (fst r) = []
  /\ storage (fst r) = None /\ In (EAlert search_failed) (snd r).
Proof.
  apply (proj1 (failed_search_display (P := example_platform)
                  (set_result fence_note empty_app) (str "run") EN
                  (Return (Some (str " null "))) 5%Z
                  ltac:(intros H; apply trim_nil_iff in H;
                        vm_compute in H; discriminate H))).
  reflexivity.
Defined.

(** X4. Whitespace before and after the response text makes no difference
    to the lookup. *)
Theorem lookupWord_ignores_outer_whitespace (w : jsstring) (mode : Mode)
    (a t b : jsstring) :
  blank a -> blank b ->
  lookupWord w mode (Return (Some (a ++ t ++ b)))
  = lookupWord w mode (Return (Some t)).
Proof.
  intros Ha Hb; unfold lookupWord, jsonStr.
  rewrite (trim_padded a t b Ha Hb); reflexivity.
Qed.

Lemma lookupWord_ignores_outer_whitespace_witness :
  lookupWord (str "run") EN (Return (Some ([10; 160] ++ str "{}" ++ [8232; 32])))
  = lookupWord (str "run") EN (Return (Some (str "{}"))).
Proof.
  apply lookupWord_ignores_outer_whitespace; repeat constructor.
Defined.

(** X5. Once a payload whose [word] is not a string has been accepted, the
    search box holds that value and the history begins with an entry for it;
    submitting the form, or clicking that entry, then throws a TypeError
    before anything is requested or changed. *)
Theorem submit_after_wordless_payload {P : Platform} (s : AppState)
    (q : jsstring) (mode : Mode) (t : jsstring) (now : Z) (d : JSON)
    (w : jsval) (response : outcome (option jsstring)) (now' : Z) :
  ~ blank q -> JSON_parse (jsonStr t) = Some d ->
  get_property d (str "word") = Some w -> ~ is_string w ->
  let s1 := fst (performSearch s q mode (Return (Some t)) now) in
  query s1 = w
  /\ hd_error (history s1) = Some {| word := w; timestamp := now |}
  /\ handleFormSubmit s1 response now' = (s1, [], Throw TypeError)
  /\ history_click s1 {| word := w; timestamp := now |} response now'
     = (s1, [], Throw TypeError).
Proof.
  intros Hq Hd Hw Hs s1; unfold s1.
  rewrite (performSearch_nonblank s q mode _ now Hq).
  rewrite (lookupWord_parsed _ _ _ _ Hd); cbv zeta; rewrite Hw.
  unfold addToHistory; simpl fst.
  split; [reflexivity|]; split; [|split].
  - cbn [history set_loading set_query set_history].
    rewrite updated_cons; reflexivity.
  - unfold handleFormSubmit; simpl query.
    destruct w as [[]|]; try reflexivity.
    exfalso; apply Hs; eexists; reflexivity.
  - unfold history_click; simpl word.
    destruct w as [[]|]; try reflexivity.
    exfalso; apply Hs; eexists; reflexivity.
Qed.

Lemma submit_after_wordless_payload_witness :
  let s1 := fst (performSearch (P := example_platform) empty_app (str "run")
                   EN (Return (Some (str "{}"))) 5%Z) in
  handleFormSubmit (P := example_platform) s1 (Return (Some (str "{}"))) 6%Z
  = (s1, [], Throw TypeError).
Proof.
  refine (proj1 (proj2 (proj2
    (submit_after_wordless_payload (P := example_platform) empty_app
       (str "run") EN (str "{}") 5%Z (JObject []) None
       (Return (Some (str "{}"))) 6%Z _ eq_refl eq_refl _)))).
  - intros H; apply trim_nil_iff in H; vm_compute in H; discriminate H.
  - intros [x Hx]; discriminate Hx.
Defined.

(** ** Fence removal and what the parser is given *)

Lemma startsWith_cons (x y : code_unit) (p s : jsstring) :
  startsWith (x :: p) (y :: s) = (x =? y) && startsWith p s.
Proof. reflexivity. Qed.

Lemma no_match_without_backquote (c : code_unit) (r : jsstring) :
  (96 =? c) = false ->
  replace_fences_from 0 (c :: r) = c :: replace_fences_from 0 r.
Proof.
  intros H; rewrite replace_fences_from_0.
  change fence_json with [96; 96; 96; 106; 115; 111; 110].
  change fence with [96; 96; 96].
  rewrite !startsWith_cons, H; reflexivity.
Qed.

Lemma no_match_single_backquote (r : jsstring) :
  startsWith [96; 96] r = false ->
  replace_fences_from 0 ((96 : code_unit) :: r) = (96 : code_unit) :: replace_fences_from 0 r.
Proof.
  intros H; rewrite replace_fences_from_0.
  assert (Ef : startsWith fence ((96 : code_unit) :: r) = false)
    by (change fence with [96; 96; 96]; rewrite startsWith_cons; exact H).
  rewrite Ef.
  destruct (startsWith fence_json ((96 : code_unit) :: r)) eqn:Ej; [|reflexivity].
  apply startsWith_fence_json_fence in Ej; congruence.
Qed.

Lemma replaced_starts_without_backquote (s : jsstring) :
  startsWith [96] s = false ->
  startsWith [96] (replace_fences_from 0 s) = false.
Proof.
  destruct s as [|c r]; [reflexivity|].
  rewrite startsWith_cons, andb_true_r; intros H.
  rewrite (no_match_without_backquote c r H), startsWith_cons, H; reflexivity.
Qed.

Lemma replaced_starts_without_two (s : jsstring) :
  startsWith [96; 96] s = false ->
  startsWith [96; 96] (replace_fences_from 0 s) = false.
Proof.
  destruct s as [|c r]; [reflexivity|].
  rewrite startsWith_cons; intros H.
  destruct (96 =? c) eqn:Ec.
  - cbn [andb] in H; apply N.eqb_eq in Ec; subst c.
    rewrite no_match_single_backquote.
    + rewrite startsWith_cons, N.eqb_refl; cbn [andb].
      apply replaced_starts_without_backquote; exact H.
    + destruct r as [|x r']; [reflexivity|].
      rewrite startsWith_cons in H; rewrite startsWith_cons.
      rewrite andb_true_r in H; rewrite H; reflexivity.
  - rewrite (no_match_without_backquote c r Ec), startsWith_cons, Ec.
    reflexivity.
Qed.

Lemma has_fence_cons (c : code_unit) (s : jsstring) :
  has_fence (c :: s) = startsWith fence (c :: s) || has_fence s.
Proof. reflexivity. Qed.

Lemma replace_fences_from_clean (s : jsstring) :
  forall n, has_fence (replace_fences_from n s) = false.
Proof.
  induction s as [|c r IH]; intros n; [destruct n; reflexivity|].
  destruct n as [|k]; [|exact (IH k)].
  rewrite replace_fences_from_0.
  destruct (startsWith fence_json (c :: r)); [exact (IH 6%nat)|].
  destruct (startsWith fence (c :: r)) eqn:Ef; [exact (IH 2%nat)|].
  rewrite has_fence_cons, (IH 0%nat), orb_false_r.
  change fence with [96; 96; 96] in *.
  rewrite startsWith_cons in Ef; rewrite startsWith_cons.
  destruct (96 =? c); [cbn [andb] in *|reflexivity].
  exact (replaced_starts_without_two r Ef).
Qed.

(** X6. After the replacement no three backquotes in a row are left in the
    text, whatever the text was: what lay between two markers is never
    joined into a new marker. *)
Theorem replace_fences_clean (s : jsstring) :
  has_fence (replace_fences s) = false.
Proof. exact (replace_fences_from_clean s 0%nat). Qed.

(** X7. A text without three backquotes in a row is left as it is, so that
    replacing twice is the same as replacing once. *)
Theorem replace_fences_fixed :
  (forall s, has_fence s = false -> replace_fences s = s)
  /\ (forall s, replace_fences (replace_fences s) = replace_fences s).
Proof.
  assert (H : forall s, has_fence s = false -> replace_fences s = s).
  { unfold replace_fences; induction s as [|c r IH]; intros Hs; [reflexivity|].
    rewrite has_fence_cons in Hs; apply orb_false_iff in Hs.
    destruct Hs as [Hc Hr].
    rewrite replace_fences_from_0, Hc.
    destruct (startsWith fence_json (c :: r)) eqn:Ej.
    - apply startsWith_fence_json_fence in Ej; congruence.
    - rewrite (IH Hr); reflexivity. }
  split; [exact H|].
  intros s; apply H; exact (replace_fences_from_clean s 0%nat).
Qed.

Lemma replace_fences_fixed_witness :
  replace_fences (str "{ `` }") = str "{ `` }".
Proof. apply (proj1 replace_fences_fixed); reflexivity. Defined.

Lemma start_value_rejects (st : list frame) (c : code_unit) :
  value_start c = false -> start_value st c = None.
Proof.
  unfold value_start, start_value, is_digit, is_digit19; intros Hv.
  destruct (c =? 123); [discriminate Hv|].
  destruct (c =? 91); [discriminate Hv|].
  destruct (c =? 34); [discriminate Hv|].
  destruct (c =? 45); [discriminate Hv|].
  destruct (c =? 116); [rewrite !orb_true_r in Hv; discriminate Hv|].
  destruct (c =? 102); [rewrite !orb_true_r in Hv; discriminate Hv|].
  destruct (c =? 110); [rewrite !orb_true_r in Hv; discriminate Hv|].
  cbn [orb] in Hv; rewrite !orb_false_r in Hv.
  destruct (c =? 48) eqn:E0.
  { apply N.eqb_eq in E0; subst c; discriminate Hv. }
  destruct ((49 <=? c) && (c <=? 57)) eqn:E; [|reflexivity].
  apply andb_true_iff in E; destruct E as [E1 E2].
  apply andb_false_iff in Hv; destruct Hv as [Hv|Hv].
  - apply N.leb_le in E1; apply N.leb_gt in Hv; lia.
  - congruence.
Qed.

Lemma parse_rejects_start (c : code_unit) (r : jsstring) :
  is_js_whitespace c = false -> value_start c = false ->
  JSON_parse (c :: r) = None.
Proof.
  intros Hw Hv; unfold JSON_parse; cbn [run step].
  assert (Hj : is_json_ws c = false).
  { destruct (is_json_ws c) eqn:E; [|reflexivity].
    apply json_ws_cases in E.
    destruct E as [-> | [-> | [-> | ->]]]; discriminate. }
  rewrite Hj, (start_value_rejects _ _ Hv); reflexivity.
Qed.

(** X8. The lookup rejects every response whose trimmed text neither opens
    with the json fence marker nor with a code unit that can begin a JSON
    value: a bare fence of three backquotes, an upper-case fence tag or a
    sentence before the payload all end in the invalid-response error, with
    the failure logged. *)
Theorem lookupWord_rejects_foreign_start (w : jsstring) (mode : Mode)
    (t : jsstring) (c : code_unit) (r : jsstring) :
  trim t = c :: r -> value_start c = false ->
  startsWith fence_json (trim t) = false ->
  lookupWord w mode (Return (Some t))
  = (Throw InvalidResponse, [ELookupRequest mode w; EConsoleError]).
Proof.
  intros Ht Hc Hf; apply lookupWord_unparsable.
  unfold jsonStr; rewrite Hf, Ht.
  apply parse_rejects_start; [|exact Hc].
  destruct (trim_no_outer_whitespace t) as [Hhead _].
  exact (Hhead c r Ht).
Qed.

Lemma lookupWord_rejects_foreign_start_witness :
  lookupWord (str "run") EN
    (Return (Some (str "```" ++ [10] ++ str "{}" ++ [10] ++ str "```")))
  = (Throw InvalidResponse, [ELookupRequest EN (str "run"); EConsoleError]).
Proof.
  apply (lookupWord_rejects_foreign_start (str "run") EN _ 96
           (str "``" ++ [10] ++ str "{}" ++ [10] ++ str "```"));
    reflexivity.
Defined.


Lemma lookupWord_v1_unfenced (w : jsstring)
    (response : outcome (option jsstring)) :
  unfenced response -> lookupWord_v1 w response = lookupWord w EN response.
Proof.
  destruct response as [[t|]|e]; intros H; try reflexivity.
  unfold lookupWord_v1, lookupWord, jsonStr; unfold unfenced in H; rewrite H.
  reflexivity.
Qed.



(** X10. On a response that does not open with the json fence marker, the
    older [handleSearch] and the current [performSearch] in English mode
    leave the same displayed record, history, stored history and loading
    flag.  They differ in what they send and in the search box: the older
    version sends the query as typed, outer whitespace included, and leaves
    the search box alone. *)
Theorem versions_agree_on_search {P : Platform} (s : AppState) (q : jsstring)
    (response : outcome (option jsstring)) (now : Z) :
  unfenced response ->
  let old := handleSearch s q response now in
  let new := performSearch s q EN response now in
  result (fst old) = result (fst new)
  /\ history (fst old) = history (fst new)
  /\ storage (fst old) = storage (fst new)
  /\ loading (fst old) = loading (fst new)
  /\ query (fst old) = query s
  /\ (forall m x, In (ELookupRequest m x) (snd old) -> m = EN /\ x = q)
  /\ (forall v, In (ESetItem v) (snd old) <-> In (ESetItem v) (snd new)).
Proof.
  intros Hu; unfold handleSearch, performSearch.
  destruct (trim q) as [|c r] eqn:Eq.
  { simpl; repeat split; try tauto; intros m x []. }
  rewrite (lookupWord_v1_unfenced q response Hu).
  assert (Hout : fst (lookupWord q EN response)
                 = fst (lookupWord (c :: r) EN response))
    by (unfold lookupWord; destruct response as [[t|]|e];
        [destruct (JSON_parse (jsonStr t))| |]; reflexivity).
  destruct (lookupWord_trace q EN response) as [Ht|Ht];
    destruct (lookupWord_trace (c :: r) EN response) as [Ht'|Ht'];
    destruct (lookupWord q EN response) as [[d|e] tr];
    destruct (lookupWord (c :: r) EN response) as [[d'|e'] tr'];
    simpl in Hout, Ht, Ht'; try discriminate Hout;
    subst tr tr'; try (injection Hout as <-);
    try destruct (get_property d (str "word")) as [x|];
    cbn [fst snd result history storage loading query set_loading set_result
         set_history set_query set_transcriptFeedback addToHistory];
    (split; [reflexivity|]); (split; [reflexivity|]); (split; [reflexivity|]);
    (split; [reflexivity|]); (split; [reflexivity|]);
    (split; [intros m y H|intros v; split; intros H]);
    simpl in H;
    repeat (destruct H as [H|H]; [try discriminate|]); try contradiction;
    try (injection H as <- <-; split; reflexivity);
    try (injection H as <-; simpl; tauto).
Qed.

Lemma versions_agree_on_search_witness :
  history (fst (handleSearch (P := example_platform) empty_app (str " run ")
                  (Return (Some fence_note_text)) 5%Z))
  = history (fst (performSearch (P := example_platform) empty_app
                    (str " run ") EN (Return (Some fence_note_text)) 5%Z)).
Proof.
  refine (proj1 (proj2 (versions_agree_on_search (P := example_platform)
                          empty_app (str " run ")
                          (Return (Some fence_note_text)) 5%Z _))).
  vm_compute; reflexivity.
Defined.

(** ** What the history keeps *)







(** ** The stored history *)

Lemma voice_step_history {P : Platform} (s s' : AppState) (e : voice_input)
    (tr : list event) :
  voice_step s e = Some (s', tr) ->
  history s' = history s /\ storage s' = storage s.
Proof.
  destruct e as [sup|m|i|i r0 results|i code|i]; simpl; intros H.
  - unfold startVoiceSearch in H.
    destruct (negb sup); [injection H as <- _; auto|].
    destruct (recognitionRef s); injection H as <- _; auto.
  - injection H as <- _; auto.
  - destruct (status_at (recognizers s) i) as [[]|]; try discriminate.
    injection H as <- _; auto.
  - destruct (nth_error (recognizers s) i); [|discriminate].
    destruct (alive s i); [|discriminate].
    unfold onresult in H; destruct (snd r0); injection H as <- _; auto.
  - destruct (alive s i); [|discriminate]; injection H as <- _; auto.
  - destruct (alive s i); [|discriminate]; injection H as <- _; auto.
Qed.

(** X12. Over any run of the application, the stored history is the
    serialization of the history on display as soon as one search has
    recorded a word; until then both are what they were.  Every write to the
    storage made by a search is the serialization of the history the search
    leaves. *)
Theorem storage_follows_history {P : Platform} (s s' : AppState) :
  evolves s s' ->
  ((history s' = history s /\ storage s' = storage s)
   \/ storage s' = Some (JSON_stringify (history s')))
  /\ (forall q mode response now v,
         In (ESetItem v) (snd (performSearch s' q mode response now)) ->
         v = JSON_stringify
               (history (fst (performSearch s' q mode response now)))
         /\ storage (fst (performSearch s' q mode response now)) = Some v).
Proof.
  intros H; split.
  - induction H as [s|s s1 e s' tr _ IH Hstep|s s1 q _ IH
                    |s s1 q mode response now _ IH].
    + left; auto.
    + destruct (voice_step_history s1 s' e tr Hstep) as [Hh Hs].
      rewrite Hh, Hs; exact IH.
    + exact IH.
    + unfold performSearch; destruct (trim q); [exact IH|].
      destruct (lookupWord _ mode response) as [[d|e] tr];
        [destruct (get_property d (str "word"))|]; simpl;
        [right; reflexivity | exact IH | exact IH].
  - clear H; intros q mode response now v.
    unfold performSearch; destruct (trim q) as [|c r]; [intros []|].
    destruct (lookupWord_trace (c :: r) mode response) as [Ht|Ht];
      destruct (lookupWord (c :: r) mode response) as [[d|e] tr];
      simpl in Ht; subst tr;
      try destruct (get_property d (str "word")); simpl; intros Hin;
      repeat (destruct Hin as [Hin|Hin]; [try discriminate|]);
      try contradiction; injection Hin as <-; auto.
Qed.

Lemma storage_follows_history_witness :
  let s' := fst (performSearch (P := example_platform) empty_app (str "run")
                   EN (Return (Some fence_note_text)) 5%Z) in
  (history s' = history empty_app /\ storage s' = storage empty_app)
  \/ storage s' = Some (stringify_history (history s')).
Proof.
  exact (proj1 (storage_follows_history (P := example_platform) empty_app _
                  (evolves_search empty_app empty_app (str "run") EN
                     (Return (Some fence_note_text)) 5%Z
                     (evolves_refl empty_app)))).
Defined.

(** ** What the decode path returns and what it refuses *)

Lemma list_ind_pairs {A : Type} (Q : list A -> Prop) :
  Q [] -> (forall a, Q [a]) -> (forall a b l, Q l -> Q (a :: b :: l)) ->
  forall l, Q l.
Proof.
  intros H0 H1 H2 l.
  assert (H : Q l /\ forall a, Q (a :: l)); [|exact (proj1 H)].
  induction l as [|x l [IH1 IH2]]; [split; [exact H0 | exact H1]|].
  split; [exact (IH2 x)|].
  intros a; apply H2; exact IH1.
Qed.

Lemma int16_of_bytes_range (lo hi : byte) :
  is_byte lo -> is_byte hi -> is_int16 (int16_of_bytes lo hi).
Proof.
  unfold is_byte, is_int16, int16_of_bytes; intros Hlo Hhi.
  destruct (Z.ltb_spec (Z.of_N (lo + 256 * hi)) 32768); lia.
Qed.

Lemma int16_elements_range (bs : list byte) :
  Forall is_byte bs -> Forall is_int16 (int16_elements bs).
Proof.
  induction bs as [|a|a b l IH] using list_ind_pairs; intros H;
    try constructor.
  - apply int16_of_bytes_range;
      [exact (Forall_inv H) | exact (Forall_inv (Forall_inv_tail H))].
  - apply IH; exact (Forall_inv_tail (Forall_inv_tail H)).
Qed.

Lemma int16_elements_length (bs : list byte) :
  Nat.even (List.length bs) = true ->
  List.length bs = (2 * List.length (int16_elements bs))%nat.
Proof.
  induction bs as [|a|a b l IH] using list_ind_pairs; intros H;
    [reflexivity | discriminate H |].
  cbn [List.length int16_elements]; rewrite (IH H); lia.
Qed.

Lemma normalize_range (x : Z) : is_int16 x -> in_unit_range (normalize x).
Proof.
  unfold is_int16, in_unit_range, normalize, Qle, Qlt; simpl; lia.
Qed.

Lemma decodeBase64_bytes (b : jsstring) (bytes : list byte) :
  decodeBase64 b = Return bytes -> Forall is_byte bytes.
Proof.
  unfold decodeBase64; destruct (atob b) as [bin|]; [|discriminate].
  intros [= <-]; apply Forall_forall; intros x Hx.
  apply in_map_iff in Hx; destruct Hx as [y [<- _]].
  apply N.mod_lt; discriminate.
Qed.

(** X13. Whatever payload the decode path accepts, the buffer it returns is
    mono at 24000 Hz, has at least one frame, one frame for every two bytes
    of the decoded payload, and every sample in it lies in [-1, 1). *)
Theorem decode_path_shape (b : jsstring) (buf : AudioBuffer) :
  decode_path b = Return buf ->
  numberOfChannels buf = 1%nat /\ bufferRate buf = 24000%Z
  /\ (1 <= frames buf)%nat
  /\ exists ch bytes,
       channels buf = [ch] /\ List.length ch = frames buf
       /\ Forall in_unit_range ch
       /\ decodeBase64 b = Return bytes
       /\ List.length bytes = (2 * frames buf)%nat.
Proof.
  unfold decode_path.
  destruct (decodeBase64 b) as [bytes|e] eqn:Eb; [|discriminate].
  pose proof (int16_elements_range bytes (decodeBase64_bytes b bytes Eb))
    as Hrange.
  unfold decodeAudioData, Int16Array.
  destruct (Nat.even (List.length bytes)) eqn:Ev; [|discriminate].
  apply int16_elements_length in Ev.
  unfold numChannels; rewrite Nat.div_1_r.
  unfold createBuffer, sampleRate.
  destruct (List.length (int16_elements bytes)) as [|n] eqn:El;
    [discriminate|].
  cbn [Nat.eqb orb Z.leb Z.compare numberOfChannels frames bufferRate seq map].
  intros [= <-]; cbn [numberOfChannels frames bufferRate channels].
  split; [reflexivity|]; split; [reflexivity|]; split; [lia|].
  exists (fill_channel (int16_elements bytes) (S n) 0), bytes.
  split; [reflexivity|]; split; [|split; [|split; [reflexivity | exact Ev]]].
  - unfold fill_channel; rewrite length_map, length_seq; reflexivity.
  - unfold fill_channel; apply Forall_forall; intros x Hx.
    apply in_map_iff in Hx; destruct Hx as [i [<- _]].
    apply normalize_range.
    destruct (nth_in_or_default (i * 1 + 0) (int16_elements bytes) 0%Z)
      as [Hin|Hd].
    + exact (proj1 (Forall_forall _ _) Hrange _ Hin).
    + unfold numChannels; rewrite Hd; unfold is_int16; lia.
Qed.

Lemma decode_path_shape_witness :
  exists buf, decode_path (str "AAD/fw==") = Return buf
              /\ frames buf = 2%nat /\ bufferRate buf = 24000%Z.
Proof.
  eexists; split; [vm_compute; reflexivity|].
  destruct (decode_path_shape (str "AAD/fw==") _ eq_refl)
    as (_ & Hrate & _ & _).
  split; [reflexivity | exact Hrate].
Defined.

Lemma strip_padding_keeps (c : code_unit) (l : jsstring) :
  In c l -> c <> 61 -> In c (strip_padding l).
Proof.
  intros Hin Hc; unfold strip_padding.
  destruct (List.length l mod 4 =? 0)%nat; [|exact Hin].
  pose proof (proj1 (in_rev l c) Hin) as Hr.
  destruct (rev l) as [|a [|x r]]; [exact Hin| |].
  - destruct (N.eqb_spec a 61); [|exact Hin].
    destruct Hr as [Hr|[]]; congruence.
  - destruct (N.eqb_spec a 61) as [Ea|Ea]; cbn [andb]; [|exact Hin].
    destruct Hr as [Hr|Hr]; [congruence|].
    destruct (N.eqb_spec x 61) as [Ex|Ex].
    + destruct Hr as [Hr|Hr]; [congruence|].
      apply in_rev in Hr; exact Hr.
    + apply in_rev in Hr; exact Hr.
Qed.

Lemma sextets_of_foreign (c : code_unit) (l : jsstring) :
  In c l -> sextet_of c = None -> sextets_of l = None.
Proof.
  induction l as [|x l IH]; intros Hin Hc; [contradiction|].
  simpl; destruct Hin as [->|Hin].
  - rewrite Hc; reflexivity.
  - rewrite (IH Hin Hc); destruct (sextet_of x); reflexivity.
Qed.

Lemma filter_twice {A : Type} (p : A -> bool) (l : list A) :
  filter p (filter p l) = filter p l.
Proof.
  induction l as [|x l IH]; [reflexivity|].
  simpl; destruct (p x) eqn:E; [simpl; rewrite E, IH; reflexivity | exact IH].
Qed.

(** X14. The decoder is forgiving about ASCII whitespace only: tabs, line
    breaks and spaces anywhere in the payload make no difference, while one
    code unit outside the base64 alphabet (the minus and underscore of the
    URL-safe alphabet, for instance) makes the whole payload an
    invalid-character error. *)
Theorem decodeBase64_forgiving (b : jsstring) :
  decodeBase64 (filter (fun c => negb (is_ascii_ws c)) b) = decodeBase64 b
  /\ decode_path (filter (fun c => negb (is_ascii_ws c)) b) = decode_path b
  /\ (forall c, In c b -> foreign c ->
                decodeBase64 b = Throw InvalidCharacterError
                /\ decode_path b = Throw InvalidCharacterError).
Proof.
  assert (H : decodeBase64 (filter (fun c => negb (is_ascii_ws c)) b)
              = decodeBase64 b)
    by (unfold decodeBase64, atob; rewrite filter_twice; reflexivity).
  split; [exact H|]; split; [unfold decode_path; rewrite H; reflexivity|].
  intros c Hin (Hws & Hsx & Hpad).
  assert (Ha : atob b = None).
  { unfold atob.
    rewrite (sextets_of_foreign c).
    - destruct (_ =? 1)%nat; reflexivity.
    - apply strip_padding_keeps; [|exact Hpad].
      apply filter_In; split; [exact Hin | rewrite Hws; reflexivity].
    - exact Hsx. }
  unfold decode_path, decodeBase64; rewrite Ha; split; reflexivity.
Qed.

Lemma decodeBase64_forgiving_witness :
  decode_path (str "AA-_") = Throw InvalidCharacterError.
Proof.
  apply (proj2 (proj2 (decodeBase64_forgiving (str "AA-_"))) 45).
  - right; right; left; reflexivity.
  - split; [reflexivity | split; [reflexivity | discriminate]].
Defined.

(** ** More on the playback state machine *)

(** X15. A narration whose calls all succeed plays the decoded payload: on
    a player that is not playing, with a payload that decodes and a context
    that is ready, the effects are, in this order, one audio request for the
    narration text, the creation of the audio context unless there is one
    already, the resumption when it was suspended, and the start of a new
    source on the decoded buffer; the player is then Playing and holds that
    source. *)
Theorem narration_plays_payload {P : Platform} (s : PlayerState) (d : JSON)
    (env : Narration) (text b : jsstring) (buf : AudioBuffer) :
  isPlaying s = false -> fullText d = Some text ->
  payload_of env = Some b -> decode_path b = Return buf ->
  context_ready s env ->
  createBufferSource env = Return tt -> connect env = Return tt ->
  start env = Return tt ->
  let r := handleReadAloud s d env in
  snd r = Return tt
  /\ snd (fst r) = narration_trace s env text buf
  /\ phase_of (fst (fst r)) = Playing
  /\ sourceNodeRef (fst (fst r)) = Some (sources s)
  /\ sources (fst (fst r)) = S (sources s)
  /\ audioContextRef (fst (fst r)) = true.
Proof.
  intros Hp Ht Hpay Hdec [Hctx Hres] Hsrc Hcon Hstart.
  assert (Hb : exists c b', b = c :: b').
  { destruct b as [|c b']; [|eauto].
    vm_compute in Hdec; discriminate Hdec. }
  destruct Hb as (c & b' & ->).
  unfold payload_of in Hpay.
  unfold handleReadAloud, generateAudio, narration_trace.
  rewrite Hp, Ht.
  destruct (tts env) as [resp|e]; [|discriminate Hpay].
  rewrite Hpay; cbv zeta.
  assert (Hplay : forall s3 tr3,
             isTtsLoading s3 = false ->
             play s3 (c :: b') env tr3
             = (set_isPlaying true
                  (set_sourceNodeRef (Some (sources s3)) (new_source s3)),
                tr3 ++ [ESourceStart (sources s3) buf], Return tt)).
  { intros s3 tr3 _; unfold play; unfold decode_path in Hdec.
    destruct (decodeBase64 (c :: b')) as [bytes|e]; [|discriminate Hdec].
    rewrite Hdec, Hsrc, Hcon, Hstart; reflexivity. }
  change (audioContextRef (set_isTtsLoading false (set_isTtsLoading true s)))
    with (audioContextRef s).
  destruct (audioContextRef s) eqn:Ea.
  - destruct (suspended env) eqn:Es.
    + destruct Hres as [Hres|Hres]; [discriminate|]; rewrite Hres.
      rewrite Hplay by reflexivity.
      unfold phase_of; simpl; rewrite Ea; repeat split; reflexivity.
    + rewrite Hplay by reflexivity.
      unfold phase_of; simpl; rewrite Ea; repeat split; reflexivity.
  - destruct Hctx as [Hctx|Hctx]; [discriminate|]; rewrite Hctx.
    destruct (suspended env) eqn:Es.
    + destruct Hres as [Hres|Hres]; [discriminate|]; rewrite Hres.
      rewrite Hplay by reflexivity.
      unfold phase_of; simpl; repeat split; reflexivity.
    + rewrite Hplay by reflexivity.
      unfold phase_of; simpl; repeat split; reflexivity.
Qed.

Lemma narration_plays_payload_witness :
  exists buf text,
    snd (fst (handleReadAloud (P := example_platform) initial_player
                fence_note all_fine))
    = [EAudioRequest text; ENewAudioContext; EResume; ESourceStart 0 buf].
Proof.
  eexists; eexists.
  refine (proj1 (proj2
    (narration_plays_payload (P := example_platform) initial_player
       fence_note all_fine _ (str "AAA=") _ eq_refl eq_refl eq_refl eq_refl
       _ eq_refl eq_refl eq_refl))).
  split; right; reflexivity.
Defined.

Lemma play_returns {P : Platform} (s : PlayerState) (b : jsstring)
    (env : Narration) (tr : list event) :
  snd (play s b env tr) = Return tt.
Proof.
  unfold play, playback_failed.
  destruct (decodeBase64 b); [|reflexivity].
  destruct (decodeAudioData a); [|reflexivity].
  destruct (createBufferSource env); [|reflexivity].
  destruct (connect env); [|reflexivity].
  destruct (start env); reflexivity.
Qed.

(** X16. The errors that the playback block does not cover are silent.
    When a narration started on a player that is not playing rejects, it is
    because the audio context could not be made or could not be resumed; a
    payload had arrived, the player is Idle, and nothing was logged, shown
    or started: the effects are the audio request and at most the creation
    and the resumption of the context. *)
Theorem narration_rejection_silent {P : Platform} (s : PlayerState)
    (d : JSON) (env : Narration) (text : jsstring) (e : exn) :
  isPlaying s = false -> fullText d = Some text ->
  snd (handleReadAloud s d env) = Throw e ->
  let r := handleReadAloud s d env in
  phase_of (fst (fst r)) = Idle
  /\ (exists c b, payload_of env = Some (c :: b))
  /\ ((audioContextRef s = false /\ newAudioContext env = Throw e)
      \/ (suspended env = true /\ resume env = Throw e))
  /\ (forall ev, In ev (snd (fst r)) ->
                 ev = EAudioRequest text \/ ev = ENewAudioContext
                 \/ ev = EResume).
Proof.
  intros Hp Ht; unfold handleReadAloud, generateAudio, payload_of.
  rewrite Hp, Ht.
  assert (Hphase : forall x, isPlaying x = false -> isTtsLoading x = false ->
                             phase_of x = Idle)
    by (intros x H1 H2; unfold phase_of; rewrite H1, H2; reflexivity).
  destruct (tts env) as [resp|e0]; cbv zeta;
    [|simpl; intros H; discriminate H].
  destruct (inline_data_of resp) as [[|c b]|];
    try (simpl; intros H; discriminate H).
  change (audioContextRef (set_isTtsLoading false (set_isTtsLoading true s)))
    with (audioContextRef s).
  destruct (audioContextRef s) eqn:Ea;
    [|destruct (newAudioContext env) as [[]|e1] eqn:En];
    try (destruct (suspended env) eqn:Es;
         [destruct (resume env) as [[]|e2] eqn:Er|]);
    try (rewrite play_returns; intros H; discriminate H);
    simpl; intros [= ->];
    (split; [apply Hphase; [exact Hp | reflexivity]|]);
    (split; [eauto|]);
    (split; [first [left; split; reflexivity | right; split; reflexivity]|]);
    intros ev Hin;
    repeat (destruct Hin as [<-|Hin]; [tauto|]); contradiction.
Qed.

Lemma narration_rejection_silent_witness :
  phase_of (fst (fst (handleReadAloud (P := example_platform) initial_player
                        fence_note
                        {| tts := Return silence_response;
                           newAudioContext := Throw NotSupportedError;
                           suspended := false; resume := Return tt;
                           createBufferSource := Return tt;
                           connect := Return tt; start := Return tt |})))
  = Idle.
Proof.
  exact (proj1 (narration_rejection_silent (P := example_platform)
                  initial_player fence_note
                  {| tts := Return silence_response;
                     newAudioContext := Throw NotSupportedError;
                     suspended := false; resume := Return tt;
                     createBufferSource := Return tt;
                     connect := Return tt; start := Return tt |}
                  _ NotSupportedError eq_refl eq_refl eq_refl)).
Defined.

Lemma play_context {P : Platform} (s : PlayerState) (b : jsstring)
    (env : Narration) (tr : list event) :
  audioContextRef (fst (fst (play s b env tr))) = audioContextRef s
  /\ filter is_new_context (snd (fst (play s b env tr)))
     = filter is_new_context tr.
Proof.
  unfold play, playback_failed.
  destruct (decodeBase64 b);
    [destruct (decodeAudioData a);
     [destruct (createBufferSource env);
      [destruct (connect env); [destruct (start env)|]|]|]|];
    simpl; rewrite filter_app, app_nil_r; auto.
Qed.

Lemma player_step_context {P : Platform} (s : PlayerState)
    (i : player_input) :
  (List.length (filter is_new_context (snd (player_step s i)))
   + (if audioContextRef (fst (player_step s i)) then 0 else 1)
   <= (if audioContextRef s then 0 else 1))%nat.
Proof.
  destruct i as [d env| |]; simpl;
    [|lia | unfold cleanup; destruct (sourceNodeRef s); simpl; lia].
  unfold handleReadAloud, generateAudio.
  destruct (isPlaying s);
    [destruct (sourceNodeRef s); simpl; lia|].
  destruct (fullText d) as [text|]; [|simpl; lia].
  destruct (tts env) as [resp|e0]; cbv zeta; [|simpl; lia].
  destruct (inline_data_of resp) as [[|c b]|]; try (simpl; lia).
  change (audioContextRef (set_isTtsLoading false (set_isTtsLoading true s)))
    with (audioContextRef s).
  destruct (audioContextRef s) eqn:Ea;
    [|destruct (newAudioContext env) as [[]|e1]];
    try (destruct (suspended env); [destruct (resume env) as [[]|e2]|]);
    cbn [fst snd];
    try (destruct (play_context
                     (set_isTtsLoading false (set_isTtsLoading true s))
                     (c :: b) env ([EAudioRequest text] ++ [EResume]))
           as [E1 E2]; rewrite E1, E2);
    try (destruct (play_context
                     (set_isTtsLoading false (set_isTtsLoading true s))
                     (c :: b) env [EAudioRequest text])
           as [E1 E2]; rewrite E1, E2);
    try (destruct (play_context
                     (set_audioContextRef true
                        (set_isTtsLoading false (set_isTtsLoading true s)))
                     (c :: b) env
                     (([EAudioRequest text] ++ [ENewAudioContext])
                      ++ [EResume]))
           as [E1 E2]; rewrite E1, E2);
    try (destruct (play_context
                     (set_audioContextRef true
                        (set_isTtsLoading false (set_isTtsLoading true s)))
                     (c :: b) env ([EAudioRequest text] ++ [ENewAudioContext]))
           as [E1 E2]; rewrite E1, E2);
    simpl; try rewrite Ea; simpl; lia.
Qed.

(** X17. Over a whole session of the player at most one audio context is
    created, and none when the player holds one from the start. *)
Theorem audio_context_made_once {P : Platform} (s : PlayerState)
    (inputs : list player_input) :
  (List.length (filter is_new_context (snd (player_run s inputs)))
   <= (if audioContextRef s then 0 else 1))%nat.
Proof.
  revert s; induction inputs as [|i rest IH]; intros s;
    [simpl; destruct (audioContextRef s); lia|].
  simpl; pose proof (player_step_context s i) as Hstep.
  destruct (player_step s i) as [s1 tr1]; simpl in Hstep.
  specialize (IH s1); destruct (player_run s1 rest) as [s2 tr2].
  simpl in IH |- *; rewrite filter_app, length_app; lia.
Qed.

Lemma player_step_latest {P : Platform} (s : PlayerState) (i : player_input) :
  source_is_latest s -> source_is_latest (fst (player_step s i)).
Proof.
  intros Hinv; pose proof Hinv as [Hrange Hlatest].
  destruct i as [d env| |]; simpl;
    [|split; [exact Hrange | intros H; discriminate H]
     |unfold cleanup; clear Hrange Hlatest;
      destruct (sourceNodeRef s); exact Hinv].
  assert (Hplay : forall s3 b tr,
             sourceNodeRef s3 = sourceNodeRef s -> sources s3 = sources s ->
             source_is_latest (fst (fst (play s3 b env tr)))).
  { intros s3 b tr H1 H2; unfold play, playback_failed.
    destruct (decodeBase64 b);
      [destruct (decodeAudioData a);
       [destruct (createBufferSource env);
        [destruct (connect env); [destruct (start env)|]|]|]|];
      (split; simpl; [|try (intros H; discriminate H)]);
      try rewrite H1; try rewrite H2; try reflexivity;
      try (intros j [= <-]; lia);
      try (intros j Hj; specialize (Hrange j Hj); lia). }
  assert (Hsame : forall x, sourceNodeRef x = sourceNodeRef s ->
                            sources x = sources s -> isPlaying x = false ->
                            source_is_latest x).
  { intros x H1 H2 H3; split; [rewrite H1, H2; exact Hrange|].
    rewrite H3; intros H; discriminate H. }
  unfold handleReadAloud, generateAudio.
  destruct (isPlaying s) eqn:Ep.
  { destruct (sourceNodeRef s) eqn:Er.
    - split; simpl; [intros j Hj; discriminate Hj | intros H; discriminate H].
    - apply Hsame; [exact Er | reflexivity | reflexivity]. }
  destruct (fullText d) as [text|]; [|apply Hsame; reflexivity || exact Ep].
  destruct (tts env) as [resp|e0]; cbv zeta;
    [|apply Hsame; reflexivity || exact Ep].
  destruct (inline_data_of resp) as [[|c b]|];
    try (apply Hsame; reflexivity || exact Ep).
  destruct (audioContextRef _);
    [|destruct (newAudioContext env) as [[]|e1]];
    try (destruct (suspended env); [destruct (resume env) as [[]|e2]|]);
    try (apply Hplay; reflexivity);
    apply Hsame; reflexivity || exact Ep.
Qed.

Lemma reachable_latest {P : Platform} (s : PlayerState) :
  player_reachable s -> source_is_latest s.
Proof.
  induction 1 as [|s i _ IH]; [|exact (player_step_latest s i IH)].
  split; [intros i H; discriminate H | intros H; discriminate H].
Qed.

(** X18. While the player is playing, the source it holds is the one
    created last, so that is the source which a change of the displayed
    record stops; at any time the source the player holds is one that was
    created. *)
Theorem playing_source_is_latest {P : Platform} (s : PlayerState) :
  player_reachable s ->
  (forall i, sourceNodeRef s = Some i -> (i < sources s)%nat)
  /\ (isPlaying s = true ->
      exists i, sources s = S i /\ sourceNodeRef s = Some i
                /\ cleanup s = (s, [ESourceStop i])).
Proof.
  intros H; destruct (reachable_latest s H) as [Hrange Hlatest].
  split; [exact Hrange|].
  intros Hp; specialize (Hlatest Hp); specialize (Hrange _ Hlatest).
  exists (pred (sources s)); split; [lia|]; split; [exact Hlatest|].
  unfold cleanup; rewrite Hlatest; reflexivity.
Qed.

Lemma playing_source_is_latest_witness :
  let s := fst (fst (handleReadAloud (P := example_platform) initial_player
                       fence_note all_fine)) in
  exists i, sources s = S i /\ sourceNodeRef s = Some i
            /\ cleanup s = (s, [ESourceStop i]).
Proof.
  apply (playing_source_is_latest (P := example_platform)).
  - exact (player_next (P := example_platform) initial_player
             (Press fence_note all_fine) player_initial).
  - reflexivity.
Defined.

(** ** More on the voice bridge *)

Lemma closed_over_set_status (i j : nat) (x : recognizer_status)
    (rs : list recognizer) :
  option_map closed_over (nth_error (set_status i x rs) j)
  = option_map closed_over (nth_error rs j).
Proof.
  revert i j; induction rs as [|r rs IH]; intros [|i] [|j]; simpl;
    try reflexivity.
  apply IH.
Qed.

Lemma closed_over_stop (i j : nat) (rs : list recognizer) :
  option_map closed_over (nth_error (stop_recognizer i rs) j)
  = option_map closed_over (nth_error rs j).
Proof.
  unfold stop_recognizer; destruct (status_at rs i) as [[]|];
    try reflexivity.
  apply closed_over_set_status.
Qed.

Lemma closed_over_app (rs : list recognizer) (r : recognizer) (j : nat)
    (m : Mode) :
  option_map closed_over (nth_error rs j) = Some m ->
  option_map closed_over (nth_error (rs ++ [r]) j) = Some m.
Proof.
  intros H; rewrite nth_error_app1; [exact H|].
  apply nth_error_Some; intros E; rewrite E in H; discriminate H.
Qed.

Lemma voice_step_closed_over (s s' : AppState) (e : voice_input)
    (tr : list event) (i : nat) (m : Mode) :
  voice_step s e = Some (s', tr) ->
  closed_over_at s i m -> closed_over_at s' i m.
Proof.
  unfold closed_over_at.
  destruct e as [sup|m'|j|j r0 results|j code|j]; simpl; intros H Hi.
  - unfold startVoiceSearch in H.
    destruct (negb sup); [injection H as <- _; exact Hi|].
    destruct (recognitionRef s); injection H as <- _; simpl;
      apply closed_over_app; [rewrite closed_over_stop|]; exact Hi.
  - injection H as <- _; exact Hi.
  - destruct (status_at (recognizers s) j) as [[]|]; try discriminate.
    injection H as <- _; exact Hi.
  - destruct (nth_error (recognizers s) j); [|discriminate].
    destruct (alive s j); [|discriminate].
    unfold onresult in H; destruct (snd r0); injection H as <- _; exact Hi.
  - destruct (alive s j); [|discriminate]; injection H as <- _; exact Hi.
  - destruct (alive s j); [|discriminate]; injection H as <- _; simpl.
    rewrite closed_over_set_status; exact Hi.
Qed.

Lemma evolves_closed_over {P : Platform} (s s' : AppState) (i : nat)
    (m : Mode) :
  evolves s s' -> closed_over_at s i m -> closed_over_at s' i m.
Proof.
  intros H Hi; induction H as [s|s s1 e s' tr _ IH Hstep|s s1 q _ IH
                               |s s1 q mode response now _ IH].
  - exact Hi.
  - exact (voice_step_closed_over s1 s' e tr i m Hstep (IH Hi)).
  - exact (IH Hi).
  - unfold closed_over_at.
    rewrite (proj2 (performSearch_voice s1 q mode response now)).
    exact (IH Hi).
Qed.

(** X19. A search started by voice uses the mode that was selected when
    the microphone button was pressed, not the one selected when the result
    arrives: whatever happens in between (mode switches, further presses,
    searches), a final result of the recognizer made by that press asks for
    a search of the whole transcript in the mode of the press, the mode its
    language was chosen by, and puts the transcript in the search box. *)
Theorem voice_search_mode_at_press {P : Platform} (s s1 s2 s3 : AppState)
    (tr1 tr : list event) (t : jsstring) (results : list (jsstring * bool)) :
  startVoiceSearch s true = (s1, tr1) -> evolves s1 s2 ->
  voice_step s2 (FireResult (List.length (recognizers s)) (t, true) results)
  = Some (s3, tr) ->
  In (ERecognizerStart (List.length (recognizers s))
        (recognizer_lang (searchMode s))) tr1
  /\ tr = [ESearch (t ++ concat (map fst results)) (searchMode s)]
  /\ query s3 = Some (JString (t ++ concat (map fst results)))
  /\ searchMode s3 = searchMode s2.
Proof.
  intros Hpress Hev Hfire.
  assert (Hnew : closed_over_at s1 (List.length (recognizers s)) (searchMode s)
                 /\ In (ERecognizerStart (List.length (recognizers s))
                          (recognizer_lang (searchMode s))) tr1).
  { unfold startVoiceSearch in Hpress; simpl negb in Hpress; cbv iota in Hpress.
    unfold closed_over_at.
    destruct (recognitionRef s) as [i|]; injection Hpress as <- <-; simpl.
    - rewrite stop_recognizer_length; split; [|right; left; reflexivity].
      rewrite nth_error_app2 by (rewrite stop_recognizer_length; lia).
      rewrite stop_recognizer_length, Nat.sub_diag; reflexivity.
    - split; [|left; reflexivity].
      rewrite nth_error_app2 by lia.
      rewrite Nat.sub_diag; reflexivity. }
  destruct Hnew as [Hnew Hstart]; split; [exact Hstart|].
  pose proof (evolves_closed_over s1 s2 _ _ Hev Hnew) as Hm.
  unfold closed_over_at in Hm; simpl in Hfire.
  destruct (nth_error (recognizers s2) (List.length (recognizers s)))
    as [r|]; [|discriminate Hfire].
  simpl in Hm; injection Hm as Hm.
  destruct (alive s2 (List.length (recognizers s))); [|discriminate Hfire].
  unfold onresult in Hfire; simpl in Hfire.
  injection Hfire as <- <-; rewrite Hm; repeat split.
Qed.

Lemma voice_search_mode_at_press_witness :
  voice_step
    (set_searchMode CN (fst (startVoiceSearch empty_app true)))
    (FireResult 0 (str "run", true) [])
  = Some (set_query (Some (JString (str "run")))
            (set_transcriptFeedback (str "run")
               (set_searchMode CN (fst (startVoiceSearch empty_app true)))),
          [ESearch (str "run") EN]).
Proof.
  destruct (voice_search_mode_at_press (P := example_platform) empty_app
              (fst (startVoiceSearch empty_app true))
              (set_searchMode CN (fst (startVoiceSearch empty_app true)))
              (set_query (Some (JString (str "run")))
                 (set_transcriptFeedback (str "run")
                    (set_searchMode CN (fst (startVoiceSearch empty_app true)))))
              (snd (startVoiceSearch empty_app true))
              [ESearch (str "run") EN] (str "run") [])
    as (_ & Htr & _).
  - reflexivity.
  - exact (evolves_voice (P := example_platform) _ _ (SwitchMode CN) _ []
             (evolves_refl _) eq_refl).
  - reflexivity.
  - reflexivity.
Defined.

Lemma performSearch_isListening {P : Platform} (s : AppState) (q : jsstring)
    (mode : Mode) (response : outcome (option jsstring)) (now : Z) :
  isListening (fst (performSearch s q mode response now)) = isListening s.
Proof.
  unfold performSearch.
  destruct (trim q); [reflexivity|].
  destruct (lookupWord _ mode response) as [[d|e] tr]; [|reflexivity].
  destruct (get_property d (str "word")); reflexivity.
Qed.

(** X20. The listening indicator is never on without a recognizer that has
    not ended: in every state of the application in which [isListening]
    holds, some recognizer is listening or winding down. *)
Theorem listening_indicator_has_recognizer {P : Platform} (s : AppState) :
  reachable s -> isListening s = true -> exists i, alive s i = true.
Proof.
  induction 1 as [s Hi|s e s' tr _ IH Hstep|s q _ IH
                  |s q mode response now _ IH]; intros Hl.
  - destruct Hi as (_ & _ & _ & Hi & _); congruence.
  - destruct e as [sup|m|j|j r0 results|j code|j]; simpl in Hstep.
    + unfold startVoiceSearch in Hstep.
      destruct (negb sup); [injection Hstep as <- _; exact (IH Hl)|].
      destruct (recognitionRef s) as [k|]; injection Hstep as <- _.
      * exists (List.length (stop_recognizer k (recognizers s))).
        unfold alive, status_at; simpl.
        rewrite nth_error_app2, Nat.sub_diag by lia; reflexivity.
      * exists (List.length (recognizers s)).
        unfold alive, status_at; simpl.
        rewrite nth_error_app2, Nat.sub_diag by lia; reflexivity.
    + injection Hstep as <- _; exact (IH Hl).
    + destruct (status_at (recognizers s) j) as [[]|] eqn:E;
        try discriminate.
      injection Hstep as <- _; exists j; unfold alive; simpl.
      rewrite E; reflexivity.
    + destruct (nth_error (recognizers s) j); [|discriminate].
      destruct (alive s j); [|discriminate].
      unfold onresult in Hstep.
      destruct (snd r0); injection Hstep as <- _; exact (IH Hl).
    + destruct (alive s j); [|discriminate].
      injection Hstep as <- _; discriminate Hl.
    + destruct (alive s j); [|discriminate].
      injection Hstep as <- _; discriminate Hl.
  - exact (IH Hl).
  - rewrite performSearch_isListening in Hl.
    destruct (IH Hl) as [i Hi]; exists i.
    unfold alive.
    rewrite (proj2 (performSearch_voice s q mode response now)); exact Hi.
Qed.

Lemma listening_indicator_has_recognizer_witness :
  exists i, alive (onstart (fst (startVoiceSearch empty_app true))) i = true.
Proof.
  apply (listening_indicator_has_recognizer (P := example_platform)).
  - apply (reach_voice (P := example_platform)
             (fst (startVoiceSearch empty_app true)) (FireStart 0) _ []).
    + apply (reach_voice (P := example_platform) empty_app
               (PressMicrophone true) _
               (snd (startVoiceSearch empty_app true))).
      * apply reach_initial; repeat split; reflexivity.
      * reflexivity.
    + reflexivity.
  - reflexivity.
Defined.

(** ** Fenced payloads and the callers of the search *)

(** X21. A payload inside a json fence is accepted with or without
    whitespace around the fence: when the text between the markers is valid
    JSON and holds no three backquotes in a row, the lookup returns the
    value of that text, with one request and nothing logged. *)
Theorem fenced_payload_accepted (w : jsstring) (mode : Mode)
    (a t b : jsstring) (v : JSON) :
  JSON_parse t = Some v -> has_fence t = false -> blank a -> blank b ->
  lookupWord w mode (Return (Some (a ++ fenced t ++ b)))
  = (Return v, [ELookupRequest mode w]).
Proof.
  intros Hv Hf Ha Hb; apply lookupWord_parsed.
  unfold jsonStr; rewrite (trim_padded a (fenced t) b Ha Hb).
  change (JSON_parse (jsonStr (fenced t)) = Some v).
  rewrite (jsonStr_fenced t Hf).
  change (10 :: t ++ [10]) with ([10] ++ (t ++ [10])).
  rewrite parse_leading_ws by (repeat constructor).
  apply (parse_trailing_ws t [10] v Hv); repeat constructor.
Qed.

Lemma fenced_payload_accepted_witness :
  lookupWord (str "run") CN
    (Return (Some ([32; 10] ++ fenced (str "{ }") ++ [10])))
  = (Return (JObject []), [ELookupRequest CN (str "run")]).
Proof.
  apply fenced_payload_accepted;
    [reflexivity | reflexivity | repeat constructor | repeat constructor].
Defined.

Lemma performSearch_request_of {P : Platform} (s : AppState) (q : jsstring)
    (mode : Mode) (response : outcome (option jsstring)) (now : Z)
    (m : Mode) (w : jsstring) :
  In (ELookupRequest m w) (snd (performSearch s q mode response now)) ->
  m = mode /\ w = trim q /\ w <> [].
Proof.
  unfold performSearch, lookupWord.
  destruct (trim q) as [|c r] eqn:E; [intros []|].
  destruct response as [[t|]|e];
    [destruct (JSON_parse (jsonStr t)) as [d|];
     [destruct (get_property d (str "word"))|]| |];
    simpl; intros H;
    repeat (destruct H as [H|H]; [try discriminate|]); try contradiction;
    injection H as <- <-; repeat split; discriminate.
Qed.

(** X22. What the two callers of the search ask the service for.  A
    submitted form asks in the mode that is selected, for the trimmed
    content of the search box; a click on a history entry asks in English
    mode whatever mode is selected, for the trimmed word of the entry. *)
Theorem callers_requests {P : Platform} (s : AppState)
    (response : outcome (option jsstring)) (now : Z) (m : Mode)
    (w : jsstring) :
  (In (ELookupRequest m w) (snd (fst (handleFormSubmit s response now))) ->
   m = searchMode s
   /\ exists q, query s = Some (JString q) /\ w = trim q /\ w <> [])
  /\ (forall it,
         In (ELookupRequest m w) (snd (fst (history_click s it response now))) ->
         m = EN
         /\ exists x, word it = Some (JString x) /\ w = trim x /\ w <> []).
Proof.
  split.
  - unfold handleFormSubmit.
    destruct (query s) as [[| | |q| |]|]; try (intros []).
    intros H; apply performSearch_request_of in H.
    destruct H as (-> & -> & Hne); split; [reflexivity|].
    exists q; repeat split; exact Hne.
  - intros it; unfold history_click.
    destruct (word it) as [[| | |x| |]|]; try (intros []).
    intros H; apply performSearch_request_of in H.
    destruct H as (-> & -> & Hne); split; [reflexivity|].
    exists x; repeat split; exact Hne.
Qed.

Lemma callers_requests_witness :
  (exists x, word (item_of (str " run ", 3%Z)) = Some (JString x)
             /\ str "run" = trim x /\ str "run" <> []).
Proof.
  refine (proj2 (proj2 (callers_requests (P := example_platform)
                          (set_searchMode CN empty_app)
                          (Return (Some (str "{}"))) 5%Z EN (str "run"))
                   (item_of (str " run ", 3%Z)) _)).
  left; reflexivity.
Defined.
